(** * genesisdb client: a shallow embedding of [genesisdb/client.py]

    The client is embedded at the level the Python code works at:
    - a [str] is a sequence of Unicode code points, [bytes] a sequence of
      octets, and [bytes.decode('utf-8')] is the strict UTF-8 decoder;
    - a Python [dict] is an insertion-ordered association list with unique
      keys; the values of an [Any]-typed slot are JSON-like values [json];
    - [print], the requests handed to [httpx] and the events handed to the
      consumer of the [observe_events] generator are recorded in a [world]
      that every operation threads along; an operation either returns or
      raises ([res]).

    [json.loads], the [CloudEvent] constructor and the HTTP server are not
    part of the repository: the development is parametric in them (the
    variables of section [Client]); module [Ref] gives executable stand-ins
    that the closed examples are run with. *)

From Stdlib Require Import List NArith ZArith Lia Bool String Ascii.
From Stdlib Require Import Strings.Byte.
From Equations Require Import Equations.
Import ListNotations.

Set Implicit Arguments.
Set Warnings "-register-all".

(* ===================================================================== *)
(** ** Python strings and bytes *)

Definition str := list N.
Definition bytes := list byte.

(** An ASCII literal of the source as a [str]. *)
Definition lit (s : string) : str := map N_of_ascii (list_ascii_of_string s).

(** Same, with every apostrophe standing for a double quote, so that JSON
    text can be written down: [jlit "{'a':1}"] is the text [{"a":1}]. *)
Definition jlit (s : string) : str :=
  map (fun c => if N.eqb c 39 then 34%N else c) (lit s).

(** ASCII text as the bytes that encode it. *)
Definition blit (s : string) : bytes :=
  map (fun c => match Byte.of_N c with Some b => b | None => x00 end) (jlit s).

Definition NL : N := 10.

Fixpoint str_eqb (a b : str) : bool :=
  match a, b with
  | [], [] => true
  | x :: a', y :: b' => N.eqb x y && str_eqb a' b'
  | _, _ => false
  end.

(** [not s] for a string: the empty string is falsy. *)
Definition falsy (s : str) : bool :=
  match s with [] => true | _ :: _ => false end.

(** [str.isspace] on one code point (CPython's [_PyUnicode_IsWhitespace]). *)
Definition isspace (c : N) : bool :=
  (((9 <=? c) && (c <=? 13)) || ((28 <=? c) && (c <=? 32))
   || (c =? 133) || (c =? 160) || (c =? 5760)
   || ((8192 <=? c) && (c <=? 8202))
   || (c =? 8232) || (c =? 8233) || (c =? 8239) || (c =? 8287)
   || (c =? 12288))%N.

Fixpoint lstrip (s : str) : str :=
  match s with
  | [] => []
  | c :: t => if isspace c then lstrip t else s
  end.

Definition rstrip (s : str) : str := rev (lstrip (rev s)).

(** [s.strip()] *)
Definition strip (s : str) : str := rstrip (lstrip s).

(** [s.split(sep)] for a one-character separator: never the empty list. *)
Fixpoint split (sep : N) (s : str) : list str :=
  match s with
  | [] => [[]]
  | c :: t =>
      if N.eqb c sep then [] :: split sep t
      else match split sep t with
           | l :: ls => (c :: l) :: ls
           | [] => [[c]]
           end
  end.

(** The loop head [while sep in s: line, s = s.split(sep, 1)] as one
    function: [None] when [sep] does not occur in [s], otherwise the text
    before the first [sep] and the text after it. *)
Fixpoint split1 (sep : N) (s : str) : option (str * str) :=
  match s with
  | [] => None
  | c :: t =>
      if N.eqb c sep then Some ([], t)
      else match split1 sep t with
           | Some (l, r) => Some (c :: l, r)
           | None => None
           end
  end.

(** [s.startswith(p)] *)
Fixpoint startswith (p s : str) : bool :=
  match p, s with
  | [], _ => true
  | _ :: _, [] => false
  | a :: p', b :: s' => N.eqb a b && startswith p' s'
  end.

(** [sub in s] for strings: substring test. *)
Fixpoint str_contains (sub s : str) : bool :=
  startswith sub s ||
  match s with
  | [] => false
  | _ :: t => str_contains sub t
  end.

(** [sep.join(parts)] *)
Fixpoint join (sep : str) (parts : list str) : str :=
  match parts with
  | [] => []
  | [p] => p
  | p :: ps => p ++ sep ++ join sep ps
  end.

(* ===================================================================== *)
(** ** Exceptions *)

(** The subclasses of [Exception] the client can meet. [OtherError] stands for
    any class of a library that the client does not name (a connection error
    of httpx, [MissingRequiredFields] of cloudevents, ...). *)
Inductive exn : Type :=
| HTTPStatusError (status : Z) (reason : str)
| JSONDecodeError (msg : str)
| UnicodeDecodeError (msg : str)
| KeyError (key : str)
| TypeError (msg : str)
| AttributeError (msg : str)
| ValueError (msg : str)
| OtherError (class_name msg : str).

(** [except json.JSONDecodeError] *)
Definition is_JSONDecodeError (e : exn) : bool :=
  match e with JSONDecodeError _ => true | _ => false end.

(* ===================================================================== *)
(** ** [bytes.decode('utf-8')] *)

(** State of the decoder between two octets: at a character boundary, or
    inside a character with [more] continuation octets to come, the bits
    read so far, and the range the next octet must lie in. *)
Inductive utf8_state : Type :=
| Boundary
| Inside (more : nat) (acc lo hi : N).

Definition utf8_lead (b : N) : option utf8_state :=
  if (194 <=? b)%N && (b <=? 223)%N then Some (Inside 0 (N.land b 31) 128 191)
  else if (b =? 224)%N then Some (Inside 1 (N.land b 15) 160 191)
  else if (b =? 237)%N then Some (Inside 1 (N.land b 15) 128 159)
  else if (225 <=? b)%N && (b <=? 239)%N then Some (Inside 1 (N.land b 15) 128 191)
  else if (b =? 240)%N then Some (Inside 2 (N.land b 7) 144 191)
  else if (b =? 244)%N then Some (Inside 2 (N.land b 7) 128 143)
  else if (241 <=? b)%N && (b <=? 243)%N then Some (Inside 2 (N.land b 7) 128 191)
  else None.

(** Decode [bs] from state [st]; [None] on an octet that cannot follow. The
    result is the decoded text and the state the input ends in. *)
Fixpoint utf8_run (st : utf8_state) (bs : bytes) : option (str * utf8_state) :=
  match bs with
  | [] => Some ([], st)
  | b :: rest =>
      let n := Byte.to_N b in
      match st with
      | Boundary =>
          if (n <? 128)%N then
            match utf8_run Boundary rest with
            | Some (s, st') => Some (n :: s, st')
            | None => None
            end
          else match utf8_lead n with
               | Some st' => utf8_run st' rest
               | None => None
               end
      | Inside more acc lo hi =>
          if (lo <=? n)%N && (n <=? hi)%N then
            let acc' := (acc * 64 + N.land n 63)%N in
            match more with
            | O => match utf8_run Boundary rest with
                   | Some (s, st') => Some (acc' :: s, st')
                   | None => None
                   end
            | S more' => utf8_run (Inside more' acc' 128 191) rest
            end
          else None
      end
  end.

(** [chunk.decode('utf-8')] (errors='strict'): an invalid octet, or input
    that ends inside a character, raises [UnicodeDecodeError]. *)
Definition decode_utf8 (bs : bytes) : exn + str :=
  match utf8_run Boundary bs with
  | Some (s, Boundary) => inr s
  | Some (_, Inside _ _ _ _) => inl (UnicodeDecodeError (lit "unexpected end of data"))
  | None => inl (UnicodeDecodeError (lit "invalid start byte or continuation byte"))
  end.

(* ===================================================================== *)
(** ** JSON-like values and dictionaries *)

(** What [json.loads] returns, and what a slot typed [Any] may hold. A float
    is kept as the text of its literal; the client never computes with one. *)
Inductive json : Type :=
| JNull
| JBool (b : bool)
| JInt (z : Z)
| JFloat (literal : str)
| JStr (s : str)
| JList (l : list json)
| JDict (d : list (str * json)).

(** A Python [dict] with string keys: insertion-ordered, keys unique. *)
Definition dict (V : Type) := list (str * V).

(** [d.get(k)] ([None] when absent) *)
Fixpoint dict_get {V} (k : str) (d : dict V) : option V :=
  match d with
  | [] => None
  | (k', v) :: d' => if str_eqb k k' then Some v else dict_get k d'
  end.

(** [k in d] *)
Definition dict_in {V} (k : str) (d : dict V) : bool :=
  match dict_get k d with Some _ => true | None => false end.

(** [d[k] = v]: overwrite in place, or append as the newest key. *)
Fixpoint dict_set {V} (k : str) (v : V) (d : dict V) : dict V :=
  match d with
  | [] => [(k, v)]
  | (k', v') :: d' =>
      if str_eqb k k' then (k, v) :: d' else (k', v') :: dict_set k v d'
  end.

(** [d[k]]: raises [KeyError] when absent. *)
Definition dict_item {V} (k : str) (d : dict V) : exn + V :=
  match dict_get k d with
  | Some v => inr v
  | None => inl (KeyError k)
  end.

(** [k in v] where [v] is an arbitrary value: key test on a dict, substring
    test on a string, element test on a list, [TypeError] otherwise. *)
Definition py_in (k : str) (v : json) : exn + bool :=
  match v with
  | JDict d => inr (dict_in k d)
  | JStr s => inr (str_contains k s)
  | JList l =>
      inr (existsb (fun x => match x with JStr s => str_eqb s k | _ => false end) l)
  | _ => inl (TypeError (lit "argument is not iterable"))
  end.

(** [v[k]] with a string [k] where [v] is an arbitrary value. *)
Definition py_item (k : str) (v : json) : exn + json :=
  match v with
  | JDict d => dict_item k d
  | JStr _ | JList _ => inl (TypeError (lit "indices must be integers"))
  | _ => inl (TypeError (lit "object is not subscriptable"))
  end.

(** [v.get(k)] where [v] is an arbitrary value: only a dict has [get]. *)
Definition py_get (k : str) (v : json) : exn + option json :=
  match v with
  | JDict d => inr (dict_get k d)
  | _ => inl (AttributeError (lit "object has no attribute 'get'"))
  end.

(** [len(v)] where [v] is an arbitrary value. *)
Definition py_len (v : json) : exn + nat :=
  match v with
  | JDict d => inr (List.length d)
  | JList l => inr (List.length l)
  | JStr s => inr (List.length s)
  | _ => inl (TypeError (lit "object has no len()"))
  end.

(* ===================================================================== *)
(** ** The outside world: console, HTTP *)

(** What an f-string interpolates into a printed line. *)
Inductive printed_arg : Type :=
| ArgExn (e : exn)
| ArgStr (s : str)
| ArgStatus (status : Z) (reason : str).

(** One [print(f"<fmt>{arg}")]: the literal prefix and the value interpolated
    after it ([ArgStatus] for "{status_code} {reason_phrase}"). *)
Record log_entry : Type := Print { fmt : string; arg : printed_arg }.

Inductive http_method : Type := GET | POST.

(** A call of [client.get], [client.post] or [client.stream]. *)
Record request : Type := mkRequest {
  req_method : http_method;
  req_url : str;
  req_json : option json;
  req_headers : dict str;
  req_stream : bool
}.

(** The part of an [httpx.Response] the client reads: [text] for a response
    read as a whole, [aiter_bytes] for the chunks of a streamed one. *)
Record response : Type := mkResponse {
  status_code : Z;
  reason_phrase : str;
  text : str;
  aiter_bytes : list bytes
}.

(** What the transport does with a request: a response, or an exception of
    its own (no connection, timeout, ...). *)
Inductive reply : Type :=
| Responded (r : response)
| Failed (e : exn).

(** [response.is_success] of httpx: the 2xx codes. *)
Definition is_success (r : response) : bool :=
  (200 <=? status_code r)%Z && (status_code r <=? 299)%Z.

(** An operation returns a value or raises. *)
Inductive res (A : Type) : Type :=
| Ret (a : A)
| Raise (e : exn).
Arguments Ret {A} a.
Arguments Raise {A} e.

(** Sequencing in [exn + A]: the first exception wins. *)
Definition sum_bind {A B} (x : exn + A) (k : A -> exn + B) : exn + B :=
  match x with
  | inl e => inl e
  | inr a => k a
  end.

Notation "'try!' x <- c ; k" := (sum_bind c (fun x => k))
  (at level 61, x name, c at next level, right associativity).

(* ===================================================================== *)
(** ** Construction of the client *)

Record Client : Type := mkClient {
  api_url : str;
  api_version : str;
  auth_token : str
}.

(** [os.getenv(k, '')] *)
Definition getenv_default (environ : dict str) (k : str) : str :=
  match dict_get k environ with
  | Some v => v
  | None => []
  end.

(** [config.get(k) or os.getenv(var, '')] *)
Definition config_or_env (config environ : dict str) (k var : str) : str :=
  match dict_get k config with
  | Some v => if falsy v then getenv_default environ var else v
  | None => getenv_default environ var
  end.

Definition required_env_vars : list str :=
  [lit "GENESISDB_API_URL"; lit "GENESISDB_API_VERSION"; lit "GENESISDB_AUTH_TOKEN"].

(** [not os.getenv(var)] *)
Definition env_unset (environ : dict str) (var : str) : bool :=
  match dict_get var environ with
  | Some v => falsy v
  | None => true
  end.

(** [Client._check_required_env] *)
Definition check_required_env (environ : dict str) : res unit :=
  let missing_env_vars := filter (env_unset environ) required_env_vars in
  match missing_env_vars with
  | [] => Ret tt
  | _ :: _ =>
      Raise (ValueError (lit "Missing required environment variables: "
                         ++ join (lit ", ") missing_env_vars))
  end.

(** The three assignments [Client.__init__] begins with: [config] is [None]
    or a dictionary; an empty dictionary is falsy and takes the branch of
    [None]. *)
Definition settings (environ : dict str) (config : option (dict str)) : Client :=
  match config with
  | Some ((_ :: _) as cfg) =>
      {| api_url := config_or_env cfg environ (lit "api_url") (lit "GENESISDB_API_URL");
         api_version := config_or_env cfg environ (lit "api_version") (lit "GENESISDB_API_VERSION");
         auth_token := config_or_env cfg environ (lit "auth_token") (lit "GENESISDB_AUTH_TOKEN") |}
  | _ =>
      {| api_url := getenv_default environ (lit "GENESISDB_API_URL");
         api_version := getenv_default environ (lit "GENESISDB_API_VERSION");
         auth_token := getenv_default environ (lit "GENESISDB_AUTH_TOKEN") |}
  end.

(** [Client.__init__]: the client, or the exception construction raises. *)
Definition Client_init (environ : dict str) (config : option (dict str)) : res Client :=
  let self := settings environ config in
  if falsy (api_url self) || falsy (api_version self) || falsy (auth_token self) then
    match check_required_env environ with
    | Raise e => Raise e
    | Ret _ => Ret self
    end
  else Ret self.

(* ===================================================================== *)
(** ** Request bodies *)

(** [if src in options: api_options[dst] = options[src]] *)
Definition copy_key (src dst : str) (options api_options : dict json) : dict json :=
  match dict_get src options with
  | Some v => dict_set dst v api_options
  | None => api_options
  end.

(** The body [stream_events] sends: [options] is [None] or a dictionary, and
    an empty dictionary is falsy. *)
Definition stream_events_body (subject : str) (options : option (dict json)) : dict json :=
  let request_body := [(lit "subject", JStr subject)] in
  match options with
  | Some ((_ :: _) as options) =>
      let api_options := [] in
      let api_options := copy_key (lit "lower_bound") (lit "lowerBound") options api_options in
      let api_options :=
        copy_key (lit "include_lower_bound_event") (lit "includeLowerBoundEvent")
                 options api_options in
      let api_options :=
        copy_key (lit "latest_by_event_type") (lit "latestByEventType") options api_options in
      dict_set (lit "options") (JDict api_options) request_body
  | _ => request_body
  end.

(** The body [observe_events] sends (the same lines, written a second time
    in the source). *)
Definition observe_events_body (subject : str) (options : option (dict json)) : dict json :=
  let request_body := [(lit "subject", JStr subject)] in
  match options with
  | Some ((_ :: _) as options) =>
      let api_options := [] in
      let api_options := copy_key (lit "lower_bound") (lit "lowerBound") options api_options in
      let api_options :=
        copy_key (lit "include_lower_bound_event") (lit "includeLowerBoundEvent")
                 options api_options in
      let api_options :=
        copy_key (lit "latest_by_event_type") (lit "latestByEventType") options api_options in
      dict_set (lit "options") (JDict api_options) request_body
  | _ => request_body
  end.

(** One turn of the loop of [commit_events] that builds [formatted_events]. *)
Definition format_event (event : dict json) : exn + json :=
  try! source <- dict_item (lit "source") event ;
  try! subject <- dict_item (lit "subject") event ;
  try! type <- dict_item (lit "type") event ;
  try! data <- dict_item (lit "data") event ;
  let event_data :=
    [(lit "source", source); (lit "subject", subject);
     (lit "type", type); (lit "data", data)] in
  match dict_get (lit "options") event with
  | Some options =>
      let api_options := [] in
      try! present <- py_in (lit "store_data_as_reference") options ;
      try! api_options <-
        (if present : bool then
           try! v <- py_item (lit "store_data_as_reference") options ;
           inr (dict_set (lit "storeDataAsReference") v api_options)
         else inr api_options) ;
      inr (JDict (dict_set (lit "options") (JDict api_options) event_data))
  | None => inr (JDict event_data)
  end.

Fixpoint format_events (events : list (dict json)) : exn + list json :=
  match events with
  | [] => inr []
  | event :: more =>
      try! event_data <- format_event event ;
      try! formatted <- format_events more ;
      inr (event_data :: formatted)
  end.

(** The body [commit_events] sends, or the exception raised while building
    it. [preconditions] is [None] or a list. *)
Definition commit_events_body (events : list (dict json))
    (preconditions : option (list json)) : exn + dict json :=
  try! formatted_events <- format_events events ;
  let request_body := [(lit "events", JList formatted_events)] in
  match preconditions with
  | Some ((_ :: _) as ps) => inr (dict_set (lit "preconditions") (JList ps) request_body)
  | _ => inr request_body
  end.

Definition bearer (self : Client) : str := lit "Bearer " ++ auth_token self.

Definition endpoint (self : Client) (path : string) : str :=
  api_url self ++ lit "/api/" ++ api_version self ++ lit path.

(** The three header sets of the source. *)
Definition ndjson_headers (self : Client) : dict str :=
  [(lit "Authorization", bearer self); (lit "Content-Type", lit "application/json");
   (lit "Accept", lit "application/x-ndjson"); (lit "User-Agent", lit "genesisdb-sdk")].

Definition json_headers (self : Client) : dict str :=
  [(lit "Authorization", bearer self); (lit "Content-Type", lit "application/json");
   (lit "User-Agent", lit "genesisdb-sdk")].

Definition plain_headers (self : Client) : dict str :=
  [(lit "Authorization", bearer self); (lit "Content-Type", lit "text/plain");
   (lit "User-Agent", lit "genesisdb-sdk")].

(* ===================================================================== *)
(** ** Notions the statements use

    Nothing in this part is code of the client: these are the words the
    facts about it are stated with. *)

(** The settings of [self] that have no value, each under the name of its
    environment variable, in the order of [required_env_vars]. *)
Definition missing_settings (self : Client) : list str :=
  (if falsy (api_url self) then [lit "GENESISDB_API_URL"] else [])
  ++ (if falsy (api_version self) then [lit "GENESISDB_API_VERSION"] else [])
  ++ (if falsy (auth_token self) then [lit "GENESISDB_AUTH_TOKEN"] else []).

(** The option fields of [stream_events] and [observe_events]: the name the
    caller uses and the name on the wire. *)
Definition option_names : list (str * str) :=
  [(lit "lower_bound", lit "lowerBound");
   (lit "include_lower_bound_event", lit "includeLowerBoundEvent");
   (lit "latest_by_event_type", lit "latestByEventType")].

(** The translations of the option fields [options] binds, in the order of
    [option_names]. *)
Definition translated_options (options : dict json) : dict json :=
  flat_map (fun names : str * str =>
              match dict_get (fst names) options with
              | Some v => [(snd names, v)]
              | None => []
              end) option_names.

(** The four keys [commit_events] reads from every event. *)
Definition event_keys : list str :=
  [lit "source"; lit "subject"; lit "type"; lit "data"].

Definition has_event_keys (event : dict json) : bool :=
  forallb (fun k => dict_in k event) event_keys.

(** The [options] of [event], when it has any, are a dictionary. *)
Definition options_is_dict (event : dict json) : bool :=
  match dict_get (lit "options") event with
  | Some (JDict _) | None => true
  | Some _ => false
  end.

Definition field (k : str) (event : dict json) : json :=
  match dict_get k event with
  | Some v => v
  | None => JNull
  end.

(** An event as it is to go on the wire: its four fields, and its options
    translated when it has any. *)
Definition formatted (event : dict json) : json :=
  JDict ([(lit "source", field (lit "source") event);
          (lit "subject", field (lit "subject") event);
          (lit "type", field (lit "type") event);
          (lit "data", field (lit "data") event)]
         ++ match dict_get (lit "options") event with
            | Some (JDict o) =>
                [(lit "options",
                  JDict match dict_get (lit "store_data_as_reference") o with
                        | Some v => [(lit "storeDataAsReference", v)]
                        | None => []
                        end)]
            | _ => []
            end).

(** A commit request as it is to go on the wire. *)
Definition commit_body (formatted_events : list json)
    (preconditions : option (list json)) : dict json :=
  (lit "events", JList formatted_events)
  :: match preconditions with
     | Some ((_ :: _) as ps) => [(lit "preconditions", JList ps)]
     | _ => []
     end.

(** What becomes of a non-blank line of a response: the operation gets a
    value from it, or [json.loads] rejects it as not being JSON. *)
Inductive outcome (A : Type) : Type :=
| Accepted (a : A)
| NotJSON (err : exn).
Arguments Accepted {A} a.
Arguments NotJSON {A} err.

(** The values of the accepted lines, in order. *)
Definition accepted {A} (outcomes : list (outcome A)) : list A :=
  flat_map (fun o => match o with
                     | Accepted a => [a]
                     | NotJSON _ => []
                     end) outcomes.

(** The two lines printed for each line that is not JSON, in order. *)
Fixpoint decode_errors {A} (what : string) (lines : list str)
    (outcomes : list (outcome A)) : list log_entry :=
  match lines, outcomes with
  | line :: lines', NotJSON err :: outcomes' =>
      Print what (ArgExn err) :: Print "Problem with JSON: " (ArgStr line)
      :: decode_errors what lines' outcomes'
  | _ :: lines', Accepted _ :: outcomes' => decode_errors what lines' outcomes'
  | _, _ => []
  end.

(** The line the two last handlers of an operation print for [err]. *)
Definition reported (what : string) (err : exn) : log_entry :=
  match err with
  | HTTPStatusError status reason => Print "API Error: " (ArgStatus status reason)
  | _ => Print what (ArgExn err)
  end.

(* ===================================================================== *)
(** ** Executable stand-ins for the libraries *)

Module Ref.

(** *** [json.loads]: a recursive-descent reader of JSON text. It follows
    the grammar of Python's decoder (the four whitespace characters, strict
    strings, [NaN] and the infinities read as floats); the nesting depth is
    bounded by the length of the text rather than by the interpreter. *)

Definition is_ws (c : N) : bool :=
  (c =? 32)%N || (c =? 9)%N || (c =? 10)%N || (c =? 13)%N.

Fixpoint skip_ws (s : str) : str :=
  match s with
  | [] => []
  | c :: t => if is_ws c then skip_ws t else s
  end.

Definition is_digit (c : N) : bool := (48 <=? c)%N && (c <=? 57)%N.

Fixpoint take_digits (s : str) : str * str :=
  match s with
  | [] => ([], [])
  | c :: t => if is_digit c then let (d, r) := take_digits t in (c :: d, r) else ([], s)
  end.

Definition digits_value (ds : str) : Z :=
  fold_left (fun a d => (a * 10 + (Z.of_N d - 48))%Z) ds 0%Z.

Definition hex_value (c : N) : option N :=
  if is_digit c then Some (c - 48)%N
  else if (97 <=? c)%N && (c <=? 102)%N then Some (c - 87)%N
  else if (65 <=? c)%N && (c <=? 70)%N then Some (c - 55)%N
  else None.

Definition hex4 (s : str) : option (N * str) :=
  match s with
  | a :: b :: c :: d :: t =>
      match hex_value a, hex_value b, hex_value c, hex_value d with
      | Some a, Some b, Some c, Some d => Some (((a * 16 + b) * 16 + c) * 16 + d, t)%N
      | _, _, _, _ => None
      end
  | _ => None
  end.

Definition simple_escape (c : N) : option N :=
  if (c =? 34)%N then Some 34%N
  else if (c =? 92)%N then Some 92%N
  else if (c =? 47)%N then Some 47%N
  else if (c =? 98)%N then Some 8%N
  else if (c =? 102)%N then Some 12%N
  else if (c =? 110)%N then Some 10%N
  else if (c =? 114)%N then Some 13%N
  else if (c =? 116)%N then Some 9%N
  else None.

(** The text of a string after its opening quote: the characters up to the
    closing quote, and what follows it. [n] bounds the characters read. *)
Fixpoint read_string (n : nat) (s acc : str) : option (str * str) :=
  match n with
  | O => None
  | S n' =>
      match s with
      | [] => None
      | c :: t =>
          if (c =? 34)%N then Some (rev acc, t)
          else if (c =? 92)%N then
            match t with
            | [] => None
            | e :: t' =>
                if (e =? 117)%N then
                  match hex4 t' with
                  | None => None
                  | Some (hi, t2) =>
                      if (55296 <=? hi)%N && (hi <=? 56319)%N then
                        match t2 with
                        | b :: u :: t3 =>
                            if (b =? 92)%N && (u =? 117)%N then
                              match hex4 t3 with
                              | Some (lo, t4) =>
                                  if (56320 <=? lo)%N && (lo <=? 57343)%N then
                                    read_string n' t4
                                      ((65536 + (hi - 55296) * 1024 + (lo - 56320))%N :: acc)
                                  else read_string n' t2 (hi :: acc)
                              | None => read_string n' t2 (hi :: acc)
                              end
                            else read_string n' t2 (hi :: acc)
                        | _ => read_string n' t2 (hi :: acc)
                        end
                      else read_string n' t2 (hi :: acc)
                  end
                else match simple_escape e with
                     | Some ch => read_string n' t' (ch :: acc)
                     | None => None
                     end
            end
          else if (c <? 32)%N then None
          else read_string n' t (c :: acc)
      end
  end.

(** A number at the head of [s]. *)
Definition read_number (s : str) : option (json * str) :=
  let '(neg, s1) :=
    match s with
    | c :: t => if (c =? 45)%N then (true, t) else (false, s)
    | [] => (false, s)
    end in
  let '(int_part, s2) :=
    match s1 with
    | c :: t => if (c =? 48)%N then ([c], t) else take_digits s1
    | [] => ([], s1)
    end in
  match int_part with
  | [] => None
  | _ :: _ =>
      let '(frac, s3) :=
        match s2 with
        | c :: t =>
            if (c =? 46)%N then
              match take_digits t with
              | ([], _) => ([], s2)
              | (d, r) => (c :: d, r)
              end
            else ([], s2)
        | [] => ([], s2)
        end in
      let '(expo, s4) :=
        match s3 with
        | c :: t =>
            if (c =? 101)%N || (c =? 69)%N then
              let '(sign, t') :=
                match t with
                | g :: u => if (g =? 43)%N || (g =? 45)%N then ([g], u) else ([], t)
                | [] => ([], t)
                end in
              match take_digits t' with
              | ([], _) => ([], s3)
              | (d, r) => (c :: sign ++ d, r)
              end
            else ([], s3)
        | [] => ([], s3)
        end in
      match frac, expo with
      | [], [] =>
          Some (JInt (if neg then (- digits_value int_part)%Z else digits_value int_part), s4)
      | _, _ =>
          Some (JFloat ((if neg then [45%N] else []) ++ int_part ++ frac ++ expo), s4)
      end
  end.

Definition after_prefix (p s : str) : option str :=
  if startswith p s then Some (skipn (List.length p) s) else None.

Inductive mode : Type :=
| Value
| Elements (acc : list json)
| Members (acc : dict json).

(** One JSON value at the head of [s] ([Value]), or the rest of an array or
    of an object whose earlier entries are [acc]. *)
Fixpoint read (fuel : nat) (m : mode) (s : str) : option (json * str) :=
  match fuel with
  | O => None
  | S n =>
      match m with
      | Value =>
          match s with
          | [] => None
          | c :: t =>
              if (c =? 34)%N then
                match read_string (List.length s) t [] with
                | Some (k, r) => Some (JStr k, r)
                | None => None
                end
              else if (c =? 123)%N then
                match skip_ws t with
                | d :: r => if (d =? 125)%N then Some (JDict [], r)
                            else read n (Members []) (skip_ws t)
                | [] => None
                end
              else if (c =? 91)%N then
                match skip_ws t with
                | d :: r => if (d =? 93)%N then Some (JList [], r)
                            else read n (Elements []) (skip_ws t)
                | [] => None
                end
              else
                match after_prefix (lit "null") s, after_prefix (lit "true") s,
                      after_prefix (lit "false") s with
                | Some r, _, _ => Some (JNull, r)
                | _, Some r, _ => Some (JBool true, r)
                | _, _, Some r => Some (JBool false, r)
                | None, None, None =>
                    match after_prefix (lit "NaN") s, after_prefix (lit "Infinity") s,
                          after_prefix (lit "-Infinity") s with
                    | Some r, _, _ => Some (JFloat (lit "NaN"), r)
                    | _, Some r, _ => Some (JFloat (lit "Infinity"), r)
                    | _, _, Some r => Some (JFloat (lit "-Infinity"), r)
                    | None, None, None => read_number s
                    end
                end
          end
      | Elements acc =>
          match read n Value s with
          | None => None
          | Some (v, s1) =>
              match skip_ws s1 with
              | c :: t =>
                  if (c =? 44)%N then read n (Elements (acc ++ [v])) (skip_ws t)
                  else if (c =? 93)%N then Some (JList (acc ++ [v]), t)
                  else None
              | [] => None
              end
          end
      | Members acc =>
          match s with
          | c :: t =>
              if (c =? 34)%N then
                match read_string (List.length s) t [] with
                | None => None
                | Some (k, s1) =>
                    match skip_ws s1 with
                    | d :: s2 =>
                        if (d =? 58)%N then
                          match read n Value (skip_ws s2) with
                          | None => None
                          | Some (v, s3) =>
                              match skip_ws s3 with
                              | e :: u =>
                                  if (e =? 44)%N then
                                    read n (Members (dict_set k v acc)) (skip_ws u)
                                  else if (e =? 125)%N then
                                    Some (JDict (dict_set k v acc), u)
                                  else None
                              | [] => None
                              end
                          end
                        else None
                    | [] => None
                    end
                end
              else None
          | [] => None
          end
      end
  end.

(** [json.loads(s)] *)
Definition json_loads (s : str) : exn + json :=
  match read (2 * List.length s + 2) Value (skip_ws s) with
  | Some (v, r) =>
      match skip_ws r with
      | [] => inr v
      | _ :: _ => inl (JSONDecodeError (lit "Extra data"))
      end
  | None => inl (JSONDecodeError (lit "Expecting value"))
  end.

(** *** [CloudEvent(attributes)] of cloudevents.http: the attribute names are
    lower-cased, [specversion] defaults to 1.0 and must be a known version,
    and [source] and [type] must be present; anything but a dictionary has no
    [items]. The identifier and the time the library would generate for an
    event that lacks them are left out of the attributes. *)

Record Event : Type := mkEvent { attributes : dict json }.

Definition lower (s : str) : str :=
  map (fun c => if (65 <=? c)%N && (c <=? 90)%N then (c + 32)%N else c) s.

Definition CloudEvent (json_data : json) : exn + Event :=
  match json_data with
  | JDict d =>
      let attrs := fold_left (fun a kv => dict_set (lower (fst kv)) (snd kv) a) d [] in
      let attrs :=
        if dict_in (lit "specversion") attrs then attrs
        else dict_set (lit "specversion") (JStr (lit "1.0")) attrs in
      let known :=
        match dict_get (lit "specversion") attrs with
        | Some (JStr v) => str_eqb v (lit "1.0") || str_eqb v (lit "0.3")
        | _ => false
        end in
      if negb known then
        inl (OtherError (lit "MissingRequiredFields") (lit "Invalid specversion"))
      else if dict_in (lit "source") attrs && dict_in (lit "type") attrs then
        inr (mkEvent attrs)
      else inl (OtherError (lit "MissingRequiredFields") (lit "Missing required keys"))
  | _ => inl (AttributeError (lit "object has no attribute 'items'"))
  end.

End Ref.

(* ===================================================================== *)
(** ** Concrete inputs *)

Module Sample.

Definition self : Client :=
  mkClient (lit "http://localhost:8080") (lit "v1") (lit "secret").

(** A service that answers every request with [r]. *)
Definition answering (r : response) : request -> reply := fun _ => Responded r.

Definition ok_text (body : str) : response := mkResponse 200 (lit "OK") body [].

Definition ok_chunks (chunks : list bytes) : response :=
  mkResponse 200 (lit "OK") [] chunks.

Definition not_found : response := mkResponse 404 (lit "Not Found") [] [].

(** Two events as the service writes them, and an object that is no
    event. *)
Definition line1 : str := jlit "{'id':'1','source':'s','type':'t','subject':'/x'}".
Definition line2 : str := jlit "{'id':'2','source':'s','type':'t','subject':'/x'}".
Definition no_event : str := jlit "{'a':1}".

Definition event1 : Ref.Event :=
  Ref.mkEvent [(lit "id", JStr (lit "1")); (lit "source", JStr (lit "s"));
               (lit "type", JStr (lit "t")); (lit "subject", JStr (lit "/x"));
               (lit "specversion", JStr (lit "1.0"))].

Definition event2 : Ref.Event :=
  Ref.mkEvent [(lit "id", JStr (lit "2")); (lit "source", JStr (lit "s"));
               (lit "type", JStr (lit "t")); (lit "subject", JStr (lit "/x"));
               (lit "specversion", JStr (lit "1.0"))].

(** One NDJSON line whose subject ends in U+00E9 (two octets, C3 A9), whole
    and cut between the two octets. *)
Definition accented_head : bytes :=
  blit "{'id':'1','source':'s','type':'t','subject':'/caf" ++ [xc3].
Definition accented_tail : bytes := [xa9] ++ blit "'}" ++ [x0a].
Definition accented_line : bytes := accented_head ++ accented_tail.

(** The three lines, as text and as one chunk. *)
Definition mixed_body : str := line1 ++ NL :: no_event ++ NL :: line2 ++ [NL].
Definition mixed_chunk : bytes :=
  blit "{'id':'1','source':'s','type':'t','subject':'/x'}" ++ [x0a]
  ++ blit "{'a':1}" ++ [x0a]
  ++ blit "{'id':'2','source':'s','type':'t','subject':'/x'}" ++ [x0a].

(** The two events, the second without a newline after it: as text, and as
    three chunks with the texts they decode to. *)
Definition open_body : str := line1 ++ NL :: line2.
Definition open_chunks : list bytes :=
  [blit "{'id':'1','sou";
   blit "rce':'s','type':'t','subject':'/x'}" ++ [x0a] ++ blit "{'id':'2',";
   blit "'source':'s','type':'t','subject':'/x'}"].
Definition open_texts : list str :=
  [jlit "{'id':'1','sou";
   jlit "rce':'s','type':'t','subject':'/x'}" ++ NL :: jlit "{'id':'2',";
   jlit "'source':'s','type':'t','subject':'/x'}"].
Definition open_response : response := mkResponse 200 (lit "OK") open_body open_chunks.

(** The same stream cut in two other places. *)
Definition open_chunks' : list bytes :=
  [blit "{'id':'1','source':'s','type':'t','subject':'/x'}" ++ [x0a];
   blit "{'id':'2','source':'s','type':'t','subject':'/x'}"].
Definition open_texts' : list str := [line1 ++ [NL]; line2].

(** Events for [commit_events]: one whose [options] are [None], one with
    options, one that lacks its type. *)
Definition event_options_none : dict json :=
  [(lit "source", JStr (lit "s")); (lit "subject", JStr (lit "/x"));
   (lit "type", JStr (lit "t")); (lit "data", JDict []); (lit "options", JNull)].

Definition event_gdpr : dict json :=
  [(lit "source", JStr (lit "s")); (lit "subject", JStr (lit "/x"));
   (lit "type", JStr (lit "t")); (lit "data", JDict []);
   (lit "options", JDict [(lit "store_data_as_reference", JBool true)])].

Definition event_no_type : dict json :=
  [(lit "source", JStr (lit "s")); (lit "subject", JStr (lit "/x"));
   (lit "data", JDict [])].

(** An environment that sets the version only, and a config object that
    gives the URL only. *)
Definition environ_version : dict str := [(lit "GENESISDB_API_VERSION", lit "v1")].
Definition config_url : option (dict str) :=
  Some [(lit "api_url", lit "http://localhost:8080")].

(** Two events with a line between them that is not JSON: as text, and as
    two chunks that cut that line, with the texts they decode to. *)
Definition noisy_body : str := line1 ++ NL :: lit "NOT-JSON" ++ NL :: line2 ++ [NL].
Definition noisy_chunks : list bytes :=
  [blit "{'id':'1','source':'s','type':'t','subject':'/x'}" ++ [x0a] ++ blit "NOT-";
   blit "JSON" ++ [x0a] ++ blit "{'id':'2','source':'s','type':'t','subject':'/x'}"
   ++ [x0a]].
Definition noisy_texts : list str :=
  [line1 ++ NL :: lit "NOT-"; lit "JSON" ++ NL :: line2 ++ [NL]].
Definition noisy_response : response :=
  mkResponse 200 (lit "OK") noisy_body noisy_chunks.

(** The three-line body the specification decodes as an example, as one
    chunk. *)
Definition example_chunk : bytes :=
  blit "{'a':1}" ++ [x0a] ++ blit "NOT-JSON" ++ [x0a] ++ blit "{'a':2}".

(** Two events with a keep-alive object between them: as text, and as two
    chunks that cut the keep-alive line, with the texts they decode to. *)
Definition keepalive_line : str := jlit "{'payload':''}".
Definition idle_body : str := line1 ++ NL :: keepalive_line ++ NL :: line2 ++ [NL].
Definition idle_chunks : list bytes :=
  [blit "{'id':'1','source':'s','type':'t','subject':'/x'}" ++ [x0a] ++ blit "{'payl";
   blit "oad':''}" ++ [x0a] ++ blit "{'id':'2','source':'s','type':'t','subject':'/x'}"
   ++ [x0a]].
Definition idle_texts : list str :=
  [line1 ++ NL :: jlit "{'payl"; jlit "oad':''}" ++ NL :: line2 ++ [NL]].
Definition idle_response : response := mkResponse 200 (lit "OK") idle_body idle_chunks.

End Sample.

(* ===================================================================== *)
(** ** The operations *)

Definition inspect {A} (a : A) : {b : A | a = b} := exist _ a eq_refl.

Section Client.

(** The result type of the [CloudEvent] constructor, the constructor itself
    and [json.loads]: library code, each may raise. *)
Variable Event : Type.
Variable json_loads : str -> exn + json.
Variable CloudEvent : json -> exn + Event.

(** The service at the other end of the transport. *)
Variable server : request -> reply.

(** Everything an operation leaves behind: the lines printed, the requests
    handed to the transport, and (for the generator [observe_events]) the
    events handed to the consumer, each oldest first. *)
Record world : Type := mkWorld {
  log : list log_entry;
  sent : list request;
  emitted : list Event
}.

Definition M (A : Type) : Type := world -> res A * world.

Definition ret {A} (a : A) : M A := fun w => (Ret a, w).

Definition raise {A} (e : exn) : M A := fun w => (Raise e, w).

Definition bind {A B} (c : M A) (k : A -> M B) : M B :=
  fun w =>
    match c w with
    | (Ret a, w') => k a w'
    | (Raise e, w') => (Raise e, w')
    end.

Notation "x <- c ;; k" := (bind c (fun x => k))
  (at level 61, c at next level, right associativity).
Notation "c ;; k" := (bind c (fun _ => k))
  (at level 61, right associativity).

(** A library call that may raise. *)
Definition lift {A} (x : exn + A) : M A :=
  match x with
  | inl e => raise e
  | inr a => ret a
  end.

(** [try: body except Exception as e: handler(e)] *)
Definition catch {A} (body : M A) (handler : exn -> M A) : M A :=
  fun w =>
    match body w with
    | (Raise e, w') => handler e w'
    | r => r
    end.

Definition print (f : string) (a : printed_arg) : M unit :=
  fun w => (Ret tt, mkWorld (log w ++ [Print f a]) (sent w) (emitted w)).

(** [yield event] *)
Definition yield (event : Event) : M unit :=
  fun w => (Ret tt, mkWorld (log w) (sent w) (emitted w ++ [event])).

(** One call into the transport. *)
Definition send (r : request) : M response :=
  fun w =>
    let w' := mkWorld (log w) (sent w ++ [r]) (emitted w) in
    match server r with
    | Responded resp => (Ret resp, w')
    | Failed e => (Raise e, w')
    end.

(** [response.raise_for_status()] *)
Definition raise_for_status (r : response) : M unit :=
  if is_success r then ret tt
  else raise (HTTPStatusError (status_code r) (reason_phrase r)).

(** The two handlers every operation ends with:
    [except httpx.HTTPStatusError as error: print(API Error ...); raise] and
    [except Exception as error: print(f"<what>{error}"); raise]. *)
Definition reporting {A} (what : string) (body : M A) : M A :=
  catch body (fun error =>
    match error with
    | HTTPStatusError status reason =>
        print "API Error: " (ArgStatus status reason) ;; raise error
    | _ => print what (ArgExn error) ;; raise error
    end).

(** *** [stream_events] *)

(** The body of the [for line in ...] loop, with [events] the list built so
    far. *)
Definition stream_events_line (line : str) (events : list Event) : M (list Event) :=
  let line := strip line in
  if falsy line then ret events
  else
    catch (json_data <- lift (json_loads line) ;;
           event <- lift (CloudEvent json_data) ;;
           ret (events ++ [event]))
          (fun err =>
             if is_JSONDecodeError err then
               print "Error while parsing event: " (ArgExn err) ;;
               print "Problem with JSON: " (ArgStr line) ;;
               ret events
             else raise err).

Fixpoint stream_events_loop (lines : list str) (events : list Event) : M (list Event) :=
  match lines with
  | [] => ret events
  | line :: more =>
      events' <- stream_events_line line events ;;
      stream_events_loop more events'
  end.

Definition stream_events (self : Client) (subject : str)
    (options : option (dict json)) : M (list Event) :=
  let url := endpoint self "/stream" in
  let request_body := stream_events_body subject options in
  let headers := ndjson_headers self in
  reporting "Error while streaming events: "
    (response <- send (mkRequest POST url (Some (JDict request_body)) headers false) ;;
     raise_for_status response ;;
     let raw_text := text response in
     if falsy raw_text || str_eqb (strip raw_text) [] then ret []
     else stream_events_loop (split NL (strip raw_text)) []).

(** *** [commit_events], [erase_data], [audit], [ping] *)

Definition commit_events (self : Client) (events : list (dict json))
    (preconditions : option (list json)) : M unit :=
  let url := endpoint self "/commit" in
  request_body <- lift (commit_events_body events preconditions) ;;
  let headers := json_headers self in
  reporting "Error while committing events: "
    (response <- send (mkRequest POST url (Some (JDict request_body)) headers false) ;;
     raise_for_status response).

Definition erase_data (self : Client) (subject : str) : M unit :=
  let url := endpoint self "/erase" in
  let headers := json_headers self in
  reporting "Error while erasing data: "
    (response <- send (mkRequest POST url (Some (JDict [(lit "subject", JStr subject)]))
                                 headers false) ;;
     raise_for_status response).

Definition audit (self : Client) : M str :=
  let url := endpoint self "/status/audit" in
  let headers := plain_headers self in
  reporting "Error while running audit: "
    (response <- send (mkRequest GET url None headers false) ;;
     raise_for_status response ;;
     ret (text response)).

Definition ping (self : Client) : M str :=
  let url := endpoint self "/status/ping" in
  let headers := plain_headers self in
  reporting "Error while pinging: "
    (response <- send (mkRequest GET url None headers false) ;;
     raise_for_status response ;;
     ret (text response)).

(** *** [q], [query_events] *)

Definition q_line (line : str) (results : list json) : M (list json) :=
  let line := strip line in
  if falsy line then ret results
  else
    catch (json_data <- lift (json_loads line) ;;
           ret (results ++ [json_data]))
          (fun err =>
             if is_JSONDecodeError err then
               print "Error while parsing result: " (ArgExn err) ;;
               print "Problem with JSON: " (ArgStr line) ;;
               ret results
             else raise err).

Fixpoint q_loop (lines : list str) (results : list json) : M (list json) :=
  match lines with
  | [] => ret results
  | line :: more =>
      results' <- q_line line results ;;
      q_loop more results'
  end.

Definition q (self : Client) (query : str) : M (list json) :=
  let url := endpoint self "/q" in
  let headers := ndjson_headers self in
  reporting "Error while querying: "
    (response <- send (mkRequest POST url (Some (JDict [(lit "query", JStr query)]))
                                 headers false) ;;
     raise_for_status response ;;
     let raw_text := text response in
     if falsy raw_text || str_eqb (strip raw_text) [] then ret []
     else q_loop (split NL (strip raw_text)) []).

Definition query_events (self : Client) (query : str) : M (list json) :=
  q self query.

(** *** [observe_events] *)

(** [json_data.get('payload') == '' and len(json_data) == 1] *)
Definition is_empty_payload (json_data : json) : exn + bool :=
  try! payload <- py_get (lit "payload") json_data ;
  match payload with
  | Some (JStr []) =>
      try! n <- py_len json_data ;
      inr (Nat.eqb n 1)
  | _ => inr false
  end.

(** [line[6:] if line.startswith('data: ') else line] *)
Definition sse_data (line : str) : str :=
  if startswith (lit "data: ") line then skipn 6 line else line.

(** The body of the [while] loop once [line] is cut off the buffer. *)
Definition observe_events_line (line : str) : M unit :=
  let line := strip line in
  if falsy line then ret tt
  else
    catch (let json_str := sse_data line in
           json_data <- lift (json_loads json_str) ;;
           skip <- lift (is_empty_payload json_data) ;;
           if skip : bool then ret tt
           else
             event <- lift (CloudEvent json_data) ;;
             yield event)
          (fun err =>
             if is_JSONDecodeError err then
               print "Error while parsing event: " (ArgExn err) ;;
               print "Problem with JSON: " (ArgStr line)
             else print "Error creating CloudEvent: " (ArgExn err)).

Lemma split1_shorter (sep : N) (s l r : str) :
  split1 sep s = Some (l, r) -> (List.length r < List.length s)%nat.
Proof.
  revert l r; induction s as [|c t IH]; simpl; intros l r H; [discriminate|].
  destruct (N.eqb c sep).
  - injection H as <- <-. lia.
  - destruct (split1 sep t) as [[l' r']|]; [|discriminate].
    injection H as <- <-. specialize (IH _ _ eq_refl). lia.
Qed.

(** [while '\n' in buffer: line, buffer = buffer.split('\n', 1); ...]:
    returns the buffer the loop leaves. *)
Equations? observe_events_drain (buffer : str) (w : world) : res str * world
  by wf (List.length buffer) lt :=
observe_events_drain buffer w with inspect (split1 NL buffer) := {
  | exist _ (Some (line, rest)) _ with observe_events_line line w := {
      | (Ret _, w') => observe_events_drain rest w'
      | (Raise e, w') => (Raise e, w') }
  | exist _ None _ => (Ret buffer, w) }.
Proof. eapply split1_shorter; eassumption. Qed.

(** [async for chunk in response.aiter_bytes(): buffer += chunk.decode('utf-8'); ...] *)
Fixpoint observe_events_chunks (chunks : list bytes) (buffer : str) : M unit :=
  match chunks with
  | [] => ret tt
  | chunk :: more =>
      decoded <- lift (decode_utf8 chunk) ;;
      buffer' <- observe_events_drain (buffer ++ decoded) ;;
      observe_events_chunks more buffer'
  end.

(** The generator run to exhaustion: the events it yields are [emitted], in
    order; the result says whether it then finished or raised. *)
Definition observe_events (self : Client) (subject : str)
    (options : option (dict json)) : M unit :=
  let url := endpoint self "/observe" in
  let request_body := observe_events_body subject options in
  let headers := ndjson_headers self in
  reporting "Error while observing events: "
    (response <- send (mkRequest POST url (Some (JDict request_body)) headers true) ;;
     raise_for_status response ;;
     observe_events_chunks (aiter_bytes response) []).

(** *** Notions the facts below are stated with *)

(** The lines a whole-body loop acts on: stripped, the empty ones left
    out. *)
Definition nonblank (lines : list str) : list str :=
  filter (fun l => negb (falsy l)) (map strip lines).

(** The body of the [while] loop of [observe_events] on each of [lines] in
    turn. *)
Fixpoint observe_events_each (lines : list str) : M unit :=
  match lines with
  | [] => ret tt
  | line :: more => observe_events_line line ;; observe_events_each more
  end.

(** What the handlers of the [while] loop print for [err]. *)
Definition observe_events_report (line : str) (err : exn) (w : world) : world :=
  if is_JSONDecodeError err then
    mkWorld (log w ++ [Print "Error while parsing event: " (ArgExn err);
                       Print "Problem with JSON: " (ArgStr line)])
            (sent w) (emitted w)
  else
    mkWorld (log w ++ [Print "Error creating CloudEvent: " (ArgExn err)])
            (sent w) (emitted w).

(** What the handler of a whole-body loop prints for a line that is not
    JSON. *)
Definition parse_report (what : string) (line : str) (err : exn) (w : world) : world :=
  mkWorld (log w ++ [Print what (ArgExn err); Print "Problem with JSON: " (ArgStr line)])
          (sent w) (emitted w).

(** The object the service sends to keep an observation alive:
    [{"payload": ""}]. *)
Definition keepalive : json := JDict [(lit "payload", JStr [])].

(** The three-line body the specification decodes as an example. *)
Definition example_body : str :=
  jlit "{'a':1}" ++ NL :: lit "NOT-JSON" ++ NL :: jlit "{'a':2}".

(** The outcome of an operation whose one request [r] the service answers
    with the refusal [resp]: the "API Error" line is printed, and
    [HTTPStatusError] leaves the operation. *)
Definition refused {A} (resp : response) (r : request) (w : world) : res A * world :=
  (Raise (HTTPStatusError (status_code resp) (reason_phrase resp)),
   mkWorld (log w ++ [Print "API Error: "
                        (ArgStatus (status_code resp) (reason_phrase resp))])
           (sent w ++ [r]) (emitted w)).

(** The outcome of an operation whose one request [r] the transport fails
    with [e]: the line of the operation's last handler is printed, and [e]
    leaves the operation. *)
Definition failed {A} (what : string) (e : exn) (r : request) (w : world)
  : res A * world :=
  (Raise e,
   mkWorld (log w ++ [Print what (ArgExn e)]) (sent w ++ [r]) (emitted w)).

(** [r] goes to an endpoint of the service of [self] and carries its token
    and the name of the SDK. *)
Definition authenticated (self : Client) (r : request) : Prop :=
  dict_get (lit "Authorization") (req_headers r) = Some (lit "Bearer " ++ auth_token self)
  /\ dict_get (lit "User-Agent") (req_headers r) = Some (lit "genesisdb-sdk")
  /\ exists path, req_url r = api_url self ++ lit "/api/" ++ api_version self ++ path.

(** [c] hands exactly one request to the transport, an authenticated one. *)
Definition asks_once {A} (self : Client) (c : M A) : Prop :=
  exists r, authenticated self r /\ forall w, sent (snd (c w)) = sent w ++ [r].

(** The values [json.loads] gives for the non-blank lines of [lines], in
    order, and the non-blank lines it gives none for. *)
Definition decoded_values (lines : list str) : list json :=
  flat_map (fun l => match json_loads l with
                     | inr v => [v]
                     | inl _ => []
                     end) (nonblank lines).

Definition undecodable (lines : list str) : list str :=
  filter (fun l => match json_loads l with
                   | inr _ => false
                   | inl _ => true
                   end) (nonblank lines).

(** The event a line stands for when [observe_events] meets it, if any. *)
Definition observed (line : str) : list Event :=
  let l := strip line in
  if falsy l then []
  else
    match json_loads (sse_data l) with
    | inr json_data =>
        match is_empty_payload json_data with
        | inr false =>
            match CloudEvent json_data with
            | inr event => [event]
            | inl _ => []
            end
        | _ => []
        end
    | inl _ => []
    end.

(** The first of the four keys that [event] lacks, in the order
    [commit_events] reads them. *)
Definition first_missing (event : dict json) : option str :=
  find (fun k => negb (dict_in k event)) event_keys.

(** What becomes of a line in [q], in [stream_events] and in
    [observe_events], when it is accepted or is not JSON. *)
Definition q_outcome (line : str) (o : outcome json) : Prop :=
  match o with
  | Accepted v => json_loads line = inr v
  | NotJSON err => json_loads line = inl err /\ is_JSONDecodeError err = true
  end.

Definition stream_events_outcome (line : str) (o : outcome Event) : Prop :=
  match o with
  | Accepted event => exists v, json_loads line = inr v /\ CloudEvent v = inr event
  | NotJSON err => json_loads line = inl err /\ is_JSONDecodeError err = true
  end.

Definition observe_events_outcome (line : str) (o : outcome Event) : Prop :=
  match o with
  | Accepted event =>
      exists v, json_loads (sse_data line) = inr v
                /\ is_empty_payload v = inr false
                /\ CloudEvent v = inr event
  | NotJSON err =>
      json_loads (sse_data line) = inl err /\ is_JSONDecodeError err = true
  end.

(* ===================================================================== *)
(** ** Facts about strings *)

Lemma str_eqb_refl (a : str) : str_eqb a a = true.
Proof.
  induction a as [|x a IH]; simpl; [reflexivity|].
  now rewrite N.eqb_refl, IH.
Qed.

Lemma str_eqb_eq (a b : str) : str_eqb a b = true <-> a = b.
Proof.
  split; [|intros ->; apply str_eqb_refl].
  revert b; induction a as [|x a IH]; destruct b as [|y b]; simpl; try easy.
  rewrite andb_true_iff, N.eqb_eq. intros [-> H]. now rewrite (IH _ H).
Qed.

Lemma lstrip_spaces (s : str) : forallb isspace s = true -> lstrip s = [].
Proof.
  induction s as [|c t IH]; simpl; [reflexivity|].
  destruct (isspace c); simpl; [exact IH|discriminate].
Qed.

Lemma strip_spaces (s : str) : forallb isspace s = true -> strip s = [].
Proof. intros H. unfold strip, rstrip. now rewrite (lstrip_spaces _ H). Qed.

Lemma lstrip_app (a b : str) :
  lstrip (a ++ b) = match lstrip a with [] => lstrip b | _ :: _ => lstrip a ++ b end.
Proof.
  induction a as [|c t IH]; simpl.
  - now destruct (lstrip b).
  - destruct (isspace c); [exact IH|reflexivity].
Qed.

Lemma rstrip_snoc_space (s : str) (c : N) :
  isspace c = true -> rstrip (s ++ [c]) = rstrip s.
Proof. intros H. unfold rstrip. rewrite rev_app_distr. simpl. now rewrite H. Qed.

Lemma strip_cons_space (c : N) (s : str) :
  isspace c = true -> strip (c :: s) = strip s.
Proof. intros H. unfold strip. simpl. now rewrite H. Qed.

Lemma strip_snoc_space (s : str) (c : N) :
  isspace c = true -> strip (s ++ [c]) = strip s.
Proof.
  intros H. unfold strip. rewrite lstrip_app.
  destruct (lstrip s) as [|d u] eqn:E.
  - simpl. now rewrite H.
  - now rewrite rstrip_snoc_space.
Qed.

(** [rstrip] only removes white space from the end. *)
Lemma rstrip_decompose (s : str) :
  exists t, s = rstrip s ++ t /\ forallb isspace t = true.
Proof.
  induction s as [|c s IH] using rev_ind.
  - now exists [].
  - destruct (isspace c) eqn:E.
    + destruct IH as (t & Hs & Ht). exists (t ++ [c]). split.
      * rewrite rstrip_snoc_space by assumption.
        rewrite app_assoc. now rewrite <- Hs.
      * rewrite forallb_app, Ht. simpl. now rewrite E.
    + exists []. split; [|reflexivity].
      unfold rstrip. rewrite rev_app_distr. simpl. rewrite E.
      simpl. rewrite rev_involutive. now rewrite app_nil_r.
Qed.

(** [lstrip] only removes white space from the start. *)
Lemma lstrip_decompose (s : str) :
  exists t, s = t ++ lstrip s /\ forallb isspace t = true.
Proof.
  induction s as [|c s IH]; simpl.
  - now exists [].
  - destruct (isspace c) eqn:E.
    + destruct IH as (t & Hs & Ht). exists (c :: t). simpl.
      rewrite E, Ht. now rewrite <- Hs.
    + now exists [].
Qed.

Lemma split_nonempty (sep : N) (s : str) : split sep s <> [].
Proof.
  destruct s as [|c t]; simpl; [discriminate|].
  destruct (N.eqb c sep); [discriminate|].
  destruct (split sep t); discriminate.
Qed.

Lemma split_cons_other (sep c : N) (s : str) :
  N.eqb c sep = false ->
  exists l ls, split sep s = l :: ls /\ split sep (c :: s) = (c :: l) :: ls.
Proof.
  intros H. simpl. rewrite H.
  destruct (split sep s) as [|l ls] eqn:E; [now apply split_nonempty in E|].
  now exists l, ls.
Qed.

(** Splitting a text that goes on after a separator. *)
Lemma split_app_sep (sep : N) (a b : str) :
  split sep (a ++ sep :: b) = split sep a ++ split sep b.
Proof.
  induction a as [|c a IH]; simpl.
  - now rewrite N.eqb_refl.
  - destruct (N.eqb c sep); [now rewrite IH|].
    rewrite IH.
    destruct (split sep a) as [|l ls] eqn:E; [now apply split_nonempty in E|].
    reflexivity.
Qed.

Lemma split_no_sep (sep : N) (s : str) : split1 sep s = None -> split sep s = [s].
Proof.
  induction s as [|c s IH]; simpl; [reflexivity|].
  destruct (N.eqb c sep); [discriminate|].
  destruct (split1 sep s) as [[l r]|]; [discriminate|].
  intros _. now rewrite IH.
Qed.

(** Appending a character that is not the separator extends the last
    piece. *)
Lemma split_snoc_other (sep c : N) (s : str) :
  N.eqb c sep = false ->
  exists init last, split sep s = init ++ [last]
                    /\ split sep (s ++ [c]) = init ++ [last ++ [c]].
Proof.
  intros H. induction s as [|d s IH]; simpl.
  - rewrite H. now exists [], [].
  - destruct IH as (init & last & E1 & E2).
    destruct (N.eqb d sep).
    + exists ([] :: init), last. now rewrite E1, E2.
    + rewrite E1, E2. destruct init as [|i init]; simpl.
      * now exists [], (d :: last).
      * now exists ((d :: i) :: init), last.
Qed.

Lemma split1_app_sep (sep : N) (a b : str) :
  split1 sep a = None -> split1 sep (a ++ sep :: b) = Some (a, b).
Proof.
  induction a as [|c a IH]; simpl.
  - now rewrite N.eqb_refl.
  - destruct (N.eqb c sep); [discriminate|].
    destruct (split1 sep a) as [[l r]|]; [discriminate|].
    intros _. now rewrite IH.
Qed.

Lemma nonblank_app (a b : list str) : nonblank (a ++ b) = nonblank a ++ nonblank b.
Proof. unfold nonblank. now rewrite map_app, filter_app. Qed.

Lemma nonblank_split_cons_space (c : N) (s : str) :
  isspace c = true -> nonblank (split NL (c :: s)) = nonblank (split NL s).
Proof.
  intros H. destruct (N.eqb c NL) eqn:E.
  - simpl. now rewrite E.
  - destruct (@split_cons_other NL c s E) as (l & ls & E1 & E2).
    rewrite E1, E2. unfold nonblank. simpl. now rewrite strip_cons_space.
Qed.

Lemma nonblank_split_snoc_space (s : str) (c : N) :
  isspace c = true -> nonblank (split NL (s ++ [c])) = nonblank (split NL s).
Proof.
  intros H. destruct (N.eqb c NL) eqn:E.
  - apply N.eqb_eq in E. subst c.
    rewrite split_app_sep, nonblank_app. simpl. now rewrite app_nil_r.
  - destruct (@split_snoc_other NL c s E) as (init & last & E1 & E2).
    rewrite E1, E2, !nonblank_app. f_equal.
    unfold nonblank. simpl. now rewrite strip_snoc_space.
Qed.

Lemma nonblank_split_spaces_before (t s : str) :
  forallb isspace t = true -> nonblank (split NL (t ++ s)) = nonblank (split NL s).
Proof.
  induction t as [|c t IH]; intros H; [reflexivity|].
  simpl in H. apply andb_true_iff in H as [Hc Ht].
  rewrite <- app_comm_cons.
  rewrite nonblank_split_cons_space by assumption. now apply IH.
Qed.

Lemma nonblank_split_spaces_after (s t : str) :
  forallb isspace t = true -> nonblank (split NL (s ++ t)) = nonblank (split NL s).
Proof.
  revert s; induction t as [|c t IH] using rev_ind; intros s H.
  - now rewrite app_nil_r.
  - rewrite forallb_app in H. apply andb_true_iff in H as [Ht Hc].
    simpl in Hc. rewrite andb_true_r in Hc.
    rewrite app_assoc, nonblank_split_snoc_space by assumption. now apply IH.
Qed.

(** [raw_text.strip().split('\n')] and [raw_text.split('\n')] hold the same
    non-blank lines. *)
Lemma nonblank_split_strip (s : str) :
  nonblank (split NL (strip s)) = nonblank (split NL s).
Proof.
  unfold strip.
  destruct (lstrip_decompose s) as (a & Ha & Hsa).
  destruct (rstrip_decompose (lstrip s)) as (b & Hb & Hsb).
  rewrite Ha at 2. rewrite nonblank_split_spaces_before by assumption.
  rewrite Hb at 2. now rewrite nonblank_split_spaces_after.
Qed.

(* ===================================================================== *)
(** ** Construction *)

Lemma falsy_getenv_default (environ : dict str) (var : str) :
  falsy (getenv_default environ var) = env_unset environ var.
Proof.
  unfold getenv_default, env_unset. now destruct (dict_get var environ).
Qed.

Lemma falsy_config_or_env (config environ : dict str) (k var : str) :
  falsy (config_or_env config environ k var) = true -> env_unset environ var = true.
Proof.
  unfold config_or_env.
  destruct (dict_get k config) as [v|]; [destruct (falsy v) eqn:E|];
    rewrite ?falsy_getenv_default; congruence.
Qed.

(** A setting that ends up without a value has its variable unset. *)
Lemma missing_setting_unset (environ : dict str) (config : option (dict str)) :
  let self := settings environ config in
  (falsy (api_url self) = true -> env_unset environ (lit "GENESISDB_API_URL") = true)
  /\ (falsy (api_version self) = true ->
      env_unset environ (lit "GENESISDB_API_VERSION") = true)
  /\ (falsy (auth_token self) = true ->
      env_unset environ (lit "GENESISDB_AUTH_TOKEN") = true).
Proof.
  unfold settings. destruct config as [[|kv cfg]|]; cbn [api_url api_version auth_token];
    rewrite ?falsy_getenv_default; repeat split; try tauto; apply falsy_config_or_env.
Qed.

Lemma settings_without_config (environ : dict str) (config : option (dict str)) :
  config = None \/ config = Some [] ->
  missing_settings (settings environ config) = filter (env_unset environ) required_env_vars.
Proof.
  intros [-> | ->]; unfold missing_settings, settings;
    cbn [api_url api_version auth_token filter required_env_vars];
    rewrite !falsy_getenv_default;
    destruct (env_unset environ (lit "GENESISDB_API_URL")),
             (env_unset environ (lit "GENESISDB_API_VERSION")),
             (env_unset environ (lit "GENESISDB_AUTH_TOKEN")); reflexivity.
Qed.

(** C9, as the code has it: when a required setting is left without a value
    once the config object and the environment are combined, [Client.__init__]
    itself raises a [ValueError]; its message enumerates exactly the required
    environment variables that are unset or empty (never an empty list). That
    list contains every setting that is missing, and is exactly the missing
    settings when no config object is given. *)
Theorem Client_init_missing_settings (environ : dict str) (config : option (dict str)) :
  missing_settings (settings environ config) <> [] ->
  let unset := filter (env_unset environ) required_env_vars in
  Client_init environ config
  = Raise (ValueError (lit "Missing required environment variables: "
                       ++ join (lit ", ") unset))
  /\ unset <> []
  /\ incl (missing_settings (settings environ config)) unset
  /\ (config = None \/ config = Some [] ->
      unset = missing_settings (settings environ config)).
Proof using.
  intros Hmiss unset.
  pose proof (missing_setting_unset environ config) as (H1 & H2 & H3).
  assert (Hlast : config = None \/ config = Some [] ->
                  unset = missing_settings (settings environ config))
    by (intros H; symmetry; now apply settings_without_config).
  unfold Client_init, check_required_env. fold unset.
  unfold missing_settings in Hmiss, Hlast |- *. subst unset.
  cbn [filter required_env_vars] in Hlast |- *.
  destruct (falsy (api_url (settings environ config)));
    [specialize (H1 eq_refl)|clear H1];
    (destruct (falsy (api_version (settings environ config)));
     [specialize (H2 eq_refl)|clear H2]);
    (destruct (falsy (auth_token (settings environ config)));
     [specialize (H3 eq_refl)|clear H3]);
    try (exfalso; apply Hmiss; reflexivity);
    cbn [orb app];
    destruct (env_unset environ (lit "GENESISDB_API_URL"));
    destruct (env_unset environ (lit "GENESISDB_API_VERSION"));
    destruct (env_unset environ (lit "GENESISDB_AUTH_TOKEN"));
    try discriminate;
    (split; [reflexivity|]; split; [discriminate|]; split; [|exact Hlast]);
    intros x Hx; cbn [In app] in Hx |- *;
    repeat (destruct Hx as [<- | Hx]; [auto 6|]); contradiction.
Qed.

(* ===================================================================== *)
(** ** Which requests an operation hands to the transport *)

(** [c] hands nothing to the transport. *)
Definition quiet {A} (c : M A) : Prop := forall w, sent (snd (c w)) = sent w.

(** [c] hands exactly [r] to the transport. *)
Definition sends {A} (r : request) (c : M A) : Prop :=
  forall w, sent (snd (c w)) = sent w ++ [r].

Lemma quiet_ret {A} (a : A) : quiet (ret a).
Proof. now intros w. Qed.

Lemma quiet_raise {A} (e : exn) : quiet (@raise A e).
Proof. now intros w. Qed.

Lemma quiet_lift {A} (x : exn + A) : quiet (lift x).
Proof. now destruct x; intros w. Qed.

Lemma quiet_print (f : string) (a : printed_arg) : quiet (print f a).
Proof. now intros w. Qed.

Lemma quiet_yield (e : Event) : quiet (yield e).
Proof. now intros w. Qed.

Lemma quiet_bind {A B} (c : M A) (k : A -> M B) :
  quiet c -> (forall a, quiet (k a)) -> quiet (bind c k).
Proof.
  intros Hc Hk w. unfold bind. specialize (Hc w).
  destruct (c w) as [[a|e] w']; simpl in *; [|exact Hc].
  now rewrite Hk.
Qed.

Lemma quiet_catch {A} (c : M A) (h : exn -> M A) :
  quiet c -> (forall e, quiet (h e)) -> quiet (catch c h).
Proof.
  intros Hc Hh w. unfold catch. specialize (Hc w).
  destruct (c w) as [[a|e] w']; simpl in *; [exact Hc|].
  now rewrite Hh.
Qed.

Lemma quiet_raise_for_status (r : response) : quiet (raise_for_status r).
Proof. unfold raise_for_status. destruct (is_success r); [apply quiet_ret|apply quiet_raise]. Qed.

Lemma sends_send (r : request) : sends r (send r).
Proof. intros w. unfold send. now destruct (server r). Qed.

Lemma sends_bind {A B} (r : request) (c : M A) (k : A -> M B) :
  sends r c -> (forall a, quiet (k a)) -> sends r (bind c k).
Proof.
  intros Hc Hk w. unfold bind. specialize (Hc w).
  destruct (c w) as [[a|e] w']; simpl in *; [|exact Hc].
  now rewrite Hk.
Qed.

Lemma sends_reporting {A} (r : request) (what : string) (c : M A) :
  sends r c -> sends r (reporting what c).
Proof.
  intros Hc w. unfold reporting, catch. specialize (Hc w).
  destruct (c w) as [[a|e] w']; simpl in *; [exact Hc|].
  now destruct e.
Qed.

Create HintDb quiet.

#[local] Hint Resolve quiet_ret quiet_raise quiet_lift quiet_print quiet_yield
  quiet_raise_for_status : quiet.

Ltac quiet_step :=
  first [ apply quiet_bind; [|intros ?] | apply quiet_catch; [|intros ?]
        | solve [auto with quiet] ].

Lemma quiet_stream_events_line (line : str) (events : list Event) :
  quiet (stream_events_line line events).
Proof.
  unfold stream_events_line. destruct (falsy (strip line)); [apply quiet_ret|].
  repeat quiet_step. destruct (is_JSONDecodeError _); repeat quiet_step.
Qed.

Lemma quiet_stream_events_loop (lines : list str) (events : list Event) :
  quiet (stream_events_loop lines events).
Proof.
  revert events; induction lines as [|l ls IH]; intros events; simpl.
  - apply quiet_ret.
  - apply quiet_bind; [apply quiet_stream_events_line|exact IH].
Qed.

Lemma quiet_observe_events_line (line : str) : quiet (observe_events_line line).
Proof.
  unfold observe_events_line. destruct (falsy (strip line)); [apply quiet_ret|].
  repeat quiet_step.
  - destruct a0; repeat quiet_step.
  - destruct (is_JSONDecodeError _); repeat quiet_step.
Qed.

(** The loop unfolded once. *)
Lemma observe_events_drain_eq (buffer : str) (w : world) :
  observe_events_drain buffer w
  = match split1 NL buffer with
    | Some (line, rest) =>
        match observe_events_line line w with
        | (Ret _, w') => observe_events_drain rest w'
        | (Raise e, w') => (Raise e, w')
        end
    | None => (Ret buffer, w)
    end.
Proof.
  funelim (observe_events_drain buffer w).
  - now rewrite e.
  - now rewrite e, Heq.
  - now rewrite e0, Heq.
Qed.

(** Induction along the turns of the loop. *)
Lemma buffer_ind (P : str -> Prop) :
  (forall buffer,
      (forall line rest, split1 NL buffer = Some (line, rest) -> P rest) -> P buffer) ->
  forall buffer, P buffer.
Proof.
  intros step buffer.
  induction buffer as [buffer IH] using (well_founded_induction
    (Wf_nat.well_founded_ltof _ (@List.length N))).
  apply step. intros line rest H. apply IH. unfold Wf_nat.ltof.
  eapply split1_shorter; eassumption.
Qed.

Lemma quiet_observe_events_drain (buffer : str) : quiet (observe_events_drain buffer).
Proof.
  induction buffer as [buffer IH] using buffer_ind. intros w.
  rewrite observe_events_drain_eq.
  destruct (split1 NL buffer) as [[line rest]|] eqn:E; [|reflexivity].
  pose proof (quiet_observe_events_line line w) as Hq.
  destruct (observe_events_line line w) as [[[]|e] w']; simpl in Hq; [|exact Hq].
  now rewrite (IH _ _ eq_refl).
Qed.

Lemma quiet_observe_events_chunks (chunks : list bytes) (buffer : str) :
  quiet (observe_events_chunks chunks buffer).
Proof.
  revert buffer; induction chunks as [|c cs IH]; intros buffer; simpl.
  - apply quiet_ret.
  - apply quiet_bind; [apply quiet_lift|intros decoded].
    apply quiet_bind; [apply quiet_observe_events_drain|exact IH].
Qed.

Lemma sends_stream_events (self : Client) (subject : str) (options : option (dict json)) :
  sends (mkRequest POST (endpoint self "/stream")
                   (Some (JDict (stream_events_body subject options)))
                   (ndjson_headers self) false)
        (stream_events self subject options).
Proof.
  unfold stream_events. apply sends_reporting, sends_bind; [apply sends_send|intros r].
  apply quiet_bind; [apply quiet_raise_for_status|intros _].
  destruct (falsy (text r) || str_eqb (strip (text r)) []);
    [apply quiet_ret|apply quiet_stream_events_loop].
Qed.

Lemma sends_observe_events (self : Client) (subject : str) (options : option (dict json)) :
  sends (mkRequest POST (endpoint self "/observe")
                   (Some (JDict (observe_events_body subject options)))
                   (ndjson_headers self) true)
        (observe_events self subject options).
Proof.
  unfold observe_events. apply sends_reporting, sends_bind; [apply sends_send|intros r].
  apply quiet_bind; [apply quiet_raise_for_status|intros _].
  apply quiet_observe_events_chunks.
Qed.

(* ===================================================================== *)
(** ** The options on the wire *)

Lemma stream_events_body_options (subject : str) (o : dict json) :
  o <> [] ->
  stream_events_body subject (Some o)
  = [(lit "subject", JStr subject); (lit "options", JDict (translated_options o))].
Proof.
  intros Ho. destruct o as [|kv o']; [congruence|].
  unfold stream_events_body, translated_options, option_names, copy_key.
  cbn [flat_map fst snd].
  generalize (kv :: o'). intros o.
  destruct (dict_get (lit "lower_bound") o);
    destruct (dict_get (lit "include_lower_bound_event") o);
    destruct (dict_get (lit "latest_by_event_type") o); reflexivity.
Qed.

Lemma observe_events_body_same (subject : str) (options : option (dict json)) :
  observe_events_body subject options = stream_events_body subject options.
Proof. reflexivity. Qed.

(** The entries of [translated_options]: a wire name is bound to [v] exactly
    when it translates a field the caller bound to [v]. *)
Lemma translated_options_lookup (o : dict json) (k : str) (v : json) :
  dict_get k (translated_options o) = Some v
  <-> exists s, In (s, k) option_names /\ dict_get s o = Some v.
Proof.
  unfold translated_options, option_names. cbn [flat_map fst snd In].
  split.
  - destruct (dict_get (lit "lower_bound") o) as [v1|] eqn:E1;
      destruct (dict_get (lit "include_lower_bound_event") o) as [v2|] eqn:E2;
      destruct (dict_get (lit "latest_by_event_type") o) as [v3|] eqn:E3;
      cbn [app dict_get]; intros H;
      repeat match type of H with
        | (if str_eqb ?a ?b then _ else _) = _ =>
            let E := fresh "E" in
            destruct (str_eqb a b) eqn:E;
            [apply str_eqb_eq in E; subst; injection H as <-|]
        end;
      try discriminate;
      eauto 8.
  - intros (s & [H | [H | [H | []]]] & Hs); injection H as <- <-; rewrite Hs;
      destruct (dict_get (lit "lower_bound") o);
      destruct (dict_get (lit "include_lower_bound_event") o);
      destruct (dict_get (lit "latest_by_event_type") o);
      try discriminate; injection Hs as ->; reflexivity.
Qed.

(** C5: the request [stream_events] and [observe_events] hand to the
    transport carries a body whose [options] object binds a wire name to a
    value exactly when that name is the camelCase translation of an option
    field the caller's dictionary binds to that value; so it holds no other
    key, and no key for a field the caller left out. For a dictionary with an
    entry the object is [translated_options] of it. *)
Theorem request_options_exact (self : Client) (subject : str)
    (options : option (dict json)) (w : world) :
  let body := stream_events_body subject options in
  observe_events_body subject options = body
  /\ sent (snd (stream_events self subject options w))
  = sent w ++ [mkRequest POST (endpoint self "/stream") (Some (JDict body))
                         (ndjson_headers self) false]
  /\ sent (snd (observe_events self subject options w))
     = sent w ++ [mkRequest POST (endpoint self "/observe") (Some (JDict body))
                            (ndjson_headers self) true]
  /\ (forall k v,
        (exists api, dict_get (lit "options") body = Some (JDict api)
                     /\ dict_get k api = Some v)
        <-> (exists o s, options = Some o /\ In (s, k) option_names
                         /\ dict_get s o = Some v))
  /\ (forall o, options = Some o -> o <> [] ->
        body = [(lit "subject", JStr subject);
                (lit "options", JDict (translated_options o))]).
Proof.
  intros body. split; [reflexivity|]. split; [apply sends_stream_events|].
  split; [apply sends_observe_events|].
  split.
  - intros k v. subst body. destruct options as [[|kv o]|].
    + split; [intros (api & H & _); discriminate|].
      intros (o & s & H & _ & Hs). injection H as <-. discriminate.
    + rewrite stream_events_body_options by discriminate.
      change (dict_get (lit "options") _)
        with (Some (JDict (translated_options (kv :: o)))).
      split.
      * intros (api & H & Hk). injection H as <-.
        apply translated_options_lookup in Hk as (s & Hin & Hs). eauto.
      * intros (o' & s & H & Hin & Hs). injection H as <-.
        eexists. split; [reflexivity|]. apply translated_options_lookup. eauto.
    + split; [intros (api & H & _); discriminate|].
      intros (o & s & H & _). discriminate.
  - intros o -> Ho. now apply stream_events_body_options.
Qed.

(* ===================================================================== *)
(** ** Responses without results, responses that are refused *)

Ltac run_request Hserver :=
  unfold reporting, catch, bind, send; rewrite !Hserver;
  unfold raise_for_status.

(** C6: when the service answers [stream_events] or [q] with a 2xx response
    whose body is empty or holds white space only, the operation returns the
    empty list: nothing is raised and nothing is printed. *)
Theorem blank_body_gives_no_results (resp : response) (self : Client)
    (subject query : str) (options : option (dict json)) (w : world) :
  (forall r, server r = Responded resp) ->
  is_success resp = true ->
  forallb isspace (text resp) = true ->
  stream_events self subject options w
  = (Ret [], mkWorld (log w)
                     (sent w ++ [mkRequest POST (endpoint self "/stream")
                                   (Some (JDict (stream_events_body subject options)))
                                   (ndjson_headers self) false])
                     (emitted w))
  /\ q self query w
     = (Ret [], mkWorld (log w)
                        (sent w ++ [mkRequest POST (endpoint self "/q")
                                      (Some (JDict [(lit "query", JStr query)]))
                                      (ndjson_headers self) false])
                        (emitted w)).
Proof.
  intros Hserver Hok Hblank.
  unfold stream_events, q. run_request Hserver. rewrite Hok.
  rewrite (strip_spaces _ Hblank). cbn [str_eqb]. rewrite orb_true_r.
  now split.
Qed.

(** C8: when the service answers with a status outside 2xx, every operation
    raises [HTTPStatusError] carrying that status code and reason phrase,
    after printing one "API Error" line with the two, and it has handed
    exactly one request to the transport. ([commit_events] reaches the
    transport once its request body is built.) *)
Theorem non_2xx_is_raised (resp : response) (self : Client) (w : world) :
  (forall r, server r = Responded resp) ->
  is_success resp = false ->
  (forall subject options,
      stream_events self subject options w
      = refused resp (mkRequest POST (endpoint self "/stream")
                        (Some (JDict (stream_events_body subject options)))
                        (ndjson_headers self) false) w)
  /\ (forall events preconditions request_body,
        commit_events_body events preconditions = inr request_body ->
        commit_events self events preconditions w
        = refused resp (mkRequest POST (endpoint self "/commit")
                          (Some (JDict request_body)) (json_headers self) false) w)
  /\ (forall subject,
        erase_data self subject w
        = refused resp (mkRequest POST (endpoint self "/erase")
                          (Some (JDict [(lit "subject", JStr subject)]))
                          (json_headers self) false) w)
  /\ audit self w
     = refused resp (mkRequest GET (endpoint self "/status/audit") None
                       (plain_headers self) false) w
  /\ ping self w
     = refused resp (mkRequest GET (endpoint self "/status/ping") None
                       (plain_headers self) false) w
  /\ (forall query,
        q self query w
        = refused resp (mkRequest POST (endpoint self "/q")
                          (Some (JDict [(lit "query", JStr query)]))
                          (ndjson_headers self) false) w)
  /\ (forall query,
        query_events self query w
        = refused resp (mkRequest POST (endpoint self "/q")
                          (Some (JDict [(lit "query", JStr query)]))
                          (ndjson_headers self) false) w)
  /\ (forall subject options,
        observe_events self subject options w
        = refused resp (mkRequest POST (endpoint self "/observe")
                          (Some (JDict (observe_events_body subject options)))
                          (ndjson_headers self) true) w).
Proof.
  intros Hserver Hfail.
  repeat split; intros;
    unfold stream_events, commit_events, erase_data, audit, ping, query_events, q,
      observe_events, refused;
    try match goal with H : commit_events_body _ _ = inr _ |- _ =>
          unfold bind at 1; rewrite H; cbn [lift ret] end;
    run_request Hserver; rewrite Hfail; reflexivity.
Qed.

(* ===================================================================== *)
(** ** More about [strip] and [split] *)

Lemma lstrip_head (s r : str) (d : N) : lstrip s = d :: r -> isspace d = false.
Proof.
  induction s as [|c s IH]; simpl; [discriminate|].
  destruct (isspace c) eqn:E; [exact IH|].
  intros H. injection H as <- _. exact E.
Qed.

Lemma lstrip_idem (s : str) : lstrip (lstrip s) = lstrip s.
Proof.
  destruct (lstrip s) as [|d r] eqn:E; [reflexivity|].
  simpl. now rewrite (lstrip_head _ E).
Qed.

Lemma rstrip_idem (s : str) : rstrip (rstrip s) = rstrip s.
Proof. unfold rstrip. now rewrite rev_involutive, lstrip_idem. Qed.

Lemma strip_idem (s : str) : strip (strip s) = strip s.
Proof.
  unfold strip.
  destruct (lstrip s) as [|d r] eqn:E; [reflexivity|].
  pose proof (lstrip_head _ E) as Hd.
  destruct (rstrip_decompose (d :: r)) as (t & Ht & Hsp).
  destruct (rstrip (d :: r)) as [|d' r'] eqn:E'.
  - reflexivity.
  - injection Ht as <- _.
    replace (lstrip (d :: r')) with (d :: r') by (simpl; now rewrite Hd).
    rewrite <- E'. apply rstrip_idem.
Qed.

(** Only white space strips to nothing. *)
Lemma strip_nil_spaces (s : str) : strip s = [] -> forallb isspace s = true.
Proof.
  unfold strip. intros H.
  destruct (lstrip_decompose s) as (a & Ha & Hsa).
  destruct (rstrip_decompose (lstrip s)) as (b & Hb & Hsb).
  rewrite H in Hb. simpl in Hb. rewrite Ha, Hb, forallb_app, Hsa, Hsb. reflexivity.
Qed.

Lemma strip_app_nonblank (a b : str) : strip b <> [] -> strip (a ++ b) <> [].
Proof.
  intros Hb H. apply Hb. apply strip_spaces.
  apply strip_nil_spaces in H. rewrite forallb_app in H.
  now apply andb_true_iff in H.
Qed.

Lemma split1_split (sep : N) (s l r : str) :
  split1 sep s = Some (l, r) -> split sep s = l :: split sep r.
Proof.
  revert l r; induction s as [|c s IH]; simpl; intros l r H; [discriminate|].
  destruct (N.eqb c sep).
  - now injection H as <- <-.
  - destruct (split1 sep s) as [[l' r']|]; [|discriminate].
    injection H as <- <-. now rewrite (IH _ _ eq_refl).
Qed.

(** The last piece of a split holds no separator. *)
Lemma split1_last_split (sep : N) (s : str) : split1 sep (last (split sep s) []) = None.
Proof.
  induction s as [|c s IH]; [reflexivity|].
  simpl split. destruct (N.eqb c sep) eqn:E.
  - destruct (split sep s) as [|l ls] eqn:Es; [now apply split_nonempty in Es|].
    exact IH.
  - destruct (split sep s) as [|l ls] eqn:Es; [now apply split_nonempty in Es|].
    destruct ls as [|l2 ls]; [|exact IH].
    simpl in *. now rewrite E, IH.
Qed.

(** Splitting a text that goes on: the pieces before the last stay, and the
    last piece is split together with what follows. *)
Lemma split_app (sep : N) (x y : str) :
  split sep (x ++ y)
  = removelast (split sep x) ++ split sep (last (split sep x) [] ++ y).
Proof.
  induction x as [|c x IH]; [reflexivity|].
  rewrite <- app_comm_cons. simpl split. destruct (N.eqb c sep) eqn:E.
  - rewrite IH.
    destruct (split sep x) as [|l ls] eqn:Es; [now apply split_nonempty in Es|].
    reflexivity.
  - rewrite IH.
    destruct (split sep x) as [|l ls] eqn:Es; [now apply split_nonempty in Es|].
    destruct ls as [|l2 ls].
    + simpl. rewrite E.
      destruct (split sep (l ++ y)) as [|l' ls'] eqn:Es';
        [now apply split_nonempty in Es'|reflexivity].
    + reflexivity.
Qed.

Lemma removelast_split_app (sep : N) (x y : str) :
  removelast (split sep (x ++ y))
  = removelast (split sep x) ++ removelast (split sep (last (split sep x) [] ++ y)).
Proof. rewrite split_app. apply removelast_app, split_nonempty. Qed.

(** A text that is empty or ends with the separator: its last piece is
    empty. *)
Lemma last_split_terminated (sep : N) (pre : str) :
  pre = [] \/ (exists p, pre = p ++ [sep]) -> last (split sep pre) [] = [].
Proof.
  intros [-> | (p & ->)]; [reflexivity|].
  rewrite split_app_sep. simpl.
  generalize (split sep p). intros l. induction l as [|a l IH]; [reflexivity|].
  rewrite <- app_comm_cons. cbn [last]. destruct (l ++ [[]]) eqn:E; [now destruct l|exact IH].
Qed.

(* ===================================================================== *)
(** ** The loops, line by line *)

Ltac report_printed :=
  destruct (is_JSONDecodeError _); unfold bind, print; cbn [log sent emitted];
  rewrite <- ?app_assoc; reflexivity.

(** One turn of the loop of [observe_events], case by case. *)
Lemma observe_events_line_cases (line : str) (w : world) :
  observe_events_line line w
  = let l := strip line in
    if falsy l then (Ret tt, w)
    else
      match json_loads (sse_data l) with
      | inl err => (Ret tt, observe_events_report l err w)
      | inr json_data =>
          match is_empty_payload json_data with
          | inl err => (Ret tt, observe_events_report l err w)
          | inr true => (Ret tt, w)
          | inr false =>
              match CloudEvent json_data with
              | inl err => (Ret tt, observe_events_report l err w)
              | inr event =>
                  (Ret tt, mkWorld (log w) (sent w) (emitted w ++ [event]))
              end
          end
      end.
Proof.
  unfold observe_events_line, observe_events_report. cbv zeta.
  destruct (falsy (strip line)); [reflexivity|].
  unfold catch, bind at 1.
  destruct (json_loads _) as [err|json_data]; cbn [lift raise ret].
  - report_printed.
  - unfold bind at 1.
    destruct (is_empty_payload json_data) as [err|[|]]; cbn [lift raise ret].
    + report_printed.
    + reflexivity.
    + unfold bind at 1.
      destruct (CloudEvent json_data) as [err|event]; cbn [lift raise ret].
      * report_printed.
      * reflexivity.
Qed.

(** A turn of that loop never raises. *)
Lemma observe_events_line_returns (line : str) (w : world) :
  exists w', observe_events_line line w = (Ret tt, w').
Proof.
  rewrite observe_events_line_cases. cbv zeta.
  destruct (falsy (strip line)); [eauto|].
  destruct (json_loads _) as [err|json_data]; [eauto|].
  destruct (is_empty_payload json_data) as [err|[|]]; [eauto|eauto|].
  destruct (CloudEvent json_data); eauto.
Qed.

Lemma observe_events_each_returns (lines : list str) (w : world) :
  exists w', observe_events_each lines w = (Ret tt, w').
Proof.
  revert w; induction lines as [|l ls IH]; intros w; simpl; [now exists w|].
  unfold bind. destruct (observe_events_line_returns l w) as (w1 & ->). apply IH.
Qed.

Lemma observe_events_each_app (a b : list str) (w : world) :
  observe_events_each (a ++ b) w
  = (observe_events_each a ;; observe_events_each b) w.
Proof.
  revert w; induction a as [|l a IH]; intros w; simpl.
  - reflexivity.
  - unfold bind. destruct (observe_events_line l w) as [[[]|e] w1]; [|reflexivity].
    rewrite IH. reflexivity.
Qed.

(** The [while] loop acts on every piece of [buffer.split('\n')] but the
    last, in order, and leaves the last piece in the buffer. *)
Lemma observe_events_drain_lines (buffer : str) (w : world) :
  observe_events_drain buffer w
  = (observe_events_each (removelast (split NL buffer)) ;;
     ret (last (split NL buffer) [])) w.
Proof.
  revert w. induction buffer as [buffer IH] using buffer_ind. intros w.
  rewrite observe_events_drain_eq.
  destruct (split1 NL buffer) as [[line rest]|] eqn:E.
  - rewrite (split1_split _ _ E).
    destruct (split NL rest) as [|l ls] eqn:Es; [now apply split_nonempty in Es|].
    change (removelast (line :: l :: ls)) with (line :: removelast (l :: ls)).
    change (last (line :: l :: ls) []) with (last (l :: ls) []).
    rewrite <- Es. cbn [observe_events_each]. unfold bind at 1 2.
    destruct (observe_events_line line w) as [[[]|e] w1]; [|reflexivity].
    rewrite (IH _ _ eq_refl). reflexivity.
  - now rewrite (split_no_sep _ _ E).
Qed.

(** The chunks of a response, each of which decodes on its own: the loop
    acts on the newline-terminated lines of the decoded text, in order. *)
Lemma observe_events_chunks_lines (chunks : list bytes) (texts : list str)
    (buffer : str) (w : world) :
  Forall2 (fun c t => decode_utf8 c = inr t) chunks texts ->
  split1 NL buffer = None ->
  observe_events_chunks chunks buffer w
  = observe_events_each (removelast (split NL (buffer ++ List.concat texts))) w.
Proof.
  intros H. revert buffer w. induction H as [|c t cs ts Hc _ IH]; intros buffer w Hb.
  - simpl. rewrite app_nil_r, (split_no_sep _ _ Hb). reflexivity.
  - cbn [observe_events_chunks List.concat]. unfold bind at 1. rewrite Hc. cbn [lift ret].
    unfold bind at 1. rewrite observe_events_drain_lines. unfold bind at 1.
    destruct (observe_events_each_returns (removelast (split NL (buffer ++ t))) w)
      as (w1 & Hw1).
    rewrite Hw1. cbn [ret]. rewrite IH by apply split1_last_split.
    rewrite app_assoc, (removelast_split_app NL (buffer ++ t)).
    rewrite observe_events_each_app. unfold bind. now rewrite Hw1.
Qed.

(** The whole-body loops: a line is looked at stripped, and skipped when
    that leaves nothing. *)
Lemma stream_events_line_strip (line : str) (events : list Event) :
  stream_events_line (strip line) events = stream_events_line line events.
Proof. unfold stream_events_line. now rewrite strip_idem. Qed.

Lemma q_line_strip (line : str) (results : list json) :
  q_line (strip line) results = q_line line results.
Proof. unfold q_line. now rewrite strip_idem. Qed.

Lemma stream_events_loop_nonblank (lines : list str) (events : list Event) (w : world) :
  stream_events_loop (nonblank lines) events w = stream_events_loop lines events w.
Proof.
  revert events w; induction lines as [|l ls IH]; intros events w; [reflexivity|].
  unfold nonblank. cbn [map filter]. fold (nonblank ls).
  destruct (falsy (strip l)) eqn:E; cbn [negb stream_events_loop].
  - rewrite IH. unfold bind, stream_events_line. now rewrite E.
  - unfold bind. rewrite stream_events_line_strip.
    destruct (stream_events_line l events w) as [[a|e] w1]; [apply IH|reflexivity].
Qed.

Lemma q_loop_nonblank (lines : list str) (results : list json) (w : world) :
  q_loop (nonblank lines) results w = q_loop lines results w.
Proof.
  revert results w; induction lines as [|l ls IH]; intros results w; [reflexivity|].
  unfold nonblank. cbn [map filter]. fold (nonblank ls).
  destruct (falsy (strip l)) eqn:E; cbn [negb q_loop].
  - rewrite IH. unfold bind, q_line. now rewrite E.
  - unfold bind. rewrite q_line_strip.
    destruct (q_line l results w) as [[a|e] w1]; [apply IH|reflexivity].
Qed.

(** Stripping the body before it is split changes nothing for the loop. *)
Lemma stream_events_loop_strip (raw_text : str) (events : list Event) (w : world) :
  stream_events_loop (split NL (strip raw_text)) events w
  = stream_events_loop (split NL raw_text) events w.
Proof.
  rewrite <- stream_events_loop_nonblank, nonblank_split_strip.
  apply stream_events_loop_nonblank.
Qed.

Lemma q_loop_strip (raw_text : str) (results : list json) (w : world) :
  q_loop (split NL (strip raw_text)) results w = q_loop (split NL raw_text) results w.
Proof.
  rewrite <- q_loop_nonblank, nonblank_split_strip. apply q_loop_nonblank.
Qed.

Lemma stream_events_loop_app (a b : list str) (events : list Event) (w : world) :
  stream_events_loop (a ++ b) events w
  = (events' <- stream_events_loop a events ;; stream_events_loop b events') w.
Proof.
  revert events w; induction a as [|l a IH]; intros events w; [reflexivity|].
  cbn [app stream_events_loop]. unfold bind.
  destruct (stream_events_line l events w) as [[ev|e] w1]; [|reflexivity].
  rewrite IH. reflexivity.
Qed.

Lemma q_loop_app (a b : list str) (results : list json) (w : world) :
  q_loop (a ++ b) results w
  = (results' <- q_loop a results ;; q_loop b results') w.
Proof.
  revert results w; induction a as [|l a IH]; intros results w; [reflexivity|].
  cbn [app q_loop]. unfold bind.
  destruct (q_line l results w) as [[r|e] w1]; [|reflexivity].
  rewrite IH. reflexivity.
Qed.

(** One turn of the loop of [stream_events], case by case: only a
    [JSONDecodeError] is caught. *)
Lemma stream_events_line_cases (line : str) (events : list Event) (w : world) :
  stream_events_line line events w
  = let l := strip line in
    if falsy l then (Ret events, w)
    else
      match json_loads l with
      | inl err =>
          if is_JSONDecodeError err
          then (Ret events, parse_report "Error while parsing event: " l err w)
          else (Raise err, w)
      | inr json_data =>
          match CloudEvent json_data with
          | inl err =>
              if is_JSONDecodeError err
              then (Ret events, parse_report "Error while parsing event: " l err w)
              else (Raise err, w)
          | inr event => (Ret (events ++ [event]), w)
          end
      end.
Proof.
  unfold stream_events_line, parse_report. cbv zeta.
  destruct (falsy (strip line)); [reflexivity|].
  unfold catch, bind at 1.
  destruct (json_loads _) as [err|json_data]; cbn [lift raise ret].
  - report_printed.
  - unfold bind at 1.
    destruct (CloudEvent json_data) as [err|event]; cbn [lift raise ret];
      [report_printed|reflexivity].
Qed.

(** One turn of the loop of [q], case by case. *)
Lemma q_line_cases (line : str) (results : list json) (w : world) :
  q_line line results w
  = let l := strip line in
    if falsy l then (Ret results, w)
    else
      match json_loads l with
      | inl err =>
          if is_JSONDecodeError err
          then (Ret results, parse_report "Error while parsing result: " l err w)
          else (Raise err, w)
      | inr json_data => (Ret (results ++ [json_data]), w)
      end.
Proof.
  unfold q_line, parse_report. cbv zeta.
  destruct (falsy (strip line)); [reflexivity|].
  unfold catch, bind at 1.
  destruct (json_loads _) as [err|json_data]; cbn [lift raise ret];
    [report_printed|reflexivity].
Qed.

Lemma not_falsy (s : str) : s <> [] -> falsy s = false.
Proof. now destruct s. Qed.

Lemma str_eqb_nil (s : str) : s <> [] -> str_eqb s [] = false.
Proof. now destruct s. Qed.

(** A body whose last piece is not blank, as the whole-body loops see it. *)
Lemma split_body_with_remainder (pre rem : str) :
  split1 NL rem = None ->
  pre = [] \/ (exists p, pre = p ++ [NL]) ->
  split NL (pre ++ rem) = removelast (split NL pre) ++ [rem].
Proof.
  intros Hrem Hpre.
  now rewrite split_app, (@last_split_terminated NL pre Hpre), app_nil_l, (split_no_sep _ _ Hrem).
Qed.

(** C7: let the input be [pre ++ rem], where [pre] is empty or ends with a
    newline and [rem] holds no newline. Streaming ([observe_events]), however
    the input is cut into chunks that decode, acts on the lines of [pre] only:
    [rem] stays in the buffer and is never parsed. Whole-body
    ([stream_events], [q]) acts on the lines of [pre] and then on [rem] as one
    more line, provided [rem] is not blank. *)
Theorem unterminated_remainder (pre rem : str) (resp : response) (self : Client)
    (subject query : str) (options : option (dict json)) (w : world) :
  split1 NL rem = None ->
  pre = [] \/ (exists p, pre = p ++ [NL]) ->
  (forall r, server r = Responded resp) ->
  is_success resp = true ->
  let lines := removelast (split NL pre) in
  let asked r := mkWorld (log w) (sent w ++ [r]) (emitted w) in
  (forall texts,
      Forall2 (fun c t => decode_utf8 c = inr t) (aiter_bytes resp) texts ->
      List.concat texts = pre ++ rem ->
      observe_events self subject options w
      = observe_events_each lines
          (asked (mkRequest POST (endpoint self "/observe")
                    (Some (JDict (observe_events_body subject options)))
                    (ndjson_headers self) true)))
  /\ (text resp = pre ++ rem ->
      strip rem <> [] ->
      stream_events self subject options w
      = reporting "Error while streaming events: "
          (events <- stream_events_loop lines [] ;; stream_events_line rem events)
          (asked (mkRequest POST (endpoint self "/stream")
                    (Some (JDict (stream_events_body subject options)))
                    (ndjson_headers self) false))
      /\ q self query w
         = reporting "Error while querying: "
             (results <- q_loop lines [] ;; q_line rem results)
             (asked (mkRequest POST (endpoint self "/q")
                       (Some (JDict [(lit "query", JStr query)]))
                       (ndjson_headers self) false))).
Proof.
  intros Hrem Hpre Hserver Hok lines asked. split.
  - intros texts Hdec Htext. unfold observe_events. run_request Hserver. rewrite Hok.
    cbn [ret]. rewrite (@observe_events_chunks_lines _ _ [] _ Hdec eq_refl).
    rewrite app_nil_l, Htext, (@split_body_with_remainder pre rem Hrem Hpre).
    rewrite removelast_app by discriminate. cbn [removelast]. rewrite app_nil_r.
    fold lines.
    destruct (observe_events_each_returns lines
                (mkWorld (log w)
                   (sent w ++ [mkRequest POST (endpoint self "/observe")
                                 (Some (JDict (observe_events_body subject options)))
                                 (ndjson_headers self) true])
                   (emitted w))) as (w1 & Hw1).
    subst asked. cbv beta. now rewrite Hw1.
  - intros Htext Hnb.
    assert (Hraw : strip (text resp) <> [])
      by (rewrite Htext; now apply strip_app_nonblank).
    assert (Hraw' : text resp <> []) by (intros H; apply Hraw; now rewrite H).
    split; [unfold stream_events|unfold q]; run_request Hserver; rewrite Hok; cbn [ret];
      rewrite (@not_falsy _ Hraw'), (@str_eqb_nil _ Hraw); cbn [orb];
      rewrite ?stream_events_loop_strip, ?q_loop_strip, Htext;
      rewrite (@split_body_with_remainder pre rem Hrem Hpre); fold lines;
      rewrite ?stream_events_loop_app, ?q_loop_app; subst asked; cbv beta;
      unfold bind.
    + destruct (stream_events_loop lines [] _) as [[evs|e] w1]; [|reflexivity].
      cbn [stream_events_loop]. unfold bind, ret.
      now destruct (stream_events_line rem evs w1) as [[evs'|e] w2].
    + destruct (q_loop lines [] _) as [[rs|e] w1]; [|reflexivity].
      cbn [q_loop]. unfold bind, ret.
      now destruct (q_line rem rs w1) as [[rs'|e] w2].
Qed.

(* ===================================================================== *)
(** ** An object the constructor rejects, in the loops *)

Lemma observe_events_drain_line (line rest : str) (w : world) :
  split1 NL line = None ->
  observe_events_drain (line ++ NL :: rest) w
  = match observe_events_line line w with
    | (Ret _, w') => observe_events_drain rest w'
    | (Raise e, w') => (Raise e, w')
    end.
Proof.
  intros H. rewrite observe_events_drain_eq.
  now rewrite (@split1_app_sep NL line rest H).
Qed.

(** An object [CloudEvent] rejects: the loop of [stream_events] raises the
    rejection, whatever lines come before or after, while the loop of
    [observe_events] reports it and goes on. *)
Theorem rejection_is_fatal_only_when_streaming (bad : str) (json_data : json)
    (err : exn) :
  strip bad <> [] ->
  CloudEvent json_data = inl err ->
  is_JSONDecodeError err = false ->
  (forall pre post events events1 w w1,
      json_loads (strip bad) = inr json_data ->
      stream_events_loop pre events w = (Ret events1, w1) ->
      stream_events_loop (pre ++ bad :: post) events w = (Raise err, w1))
  /\ (forall rest w,
        json_loads (sse_data (strip bad)) = inr json_data ->
        is_empty_payload json_data = inr false ->
        split1 NL bad = None ->
        observe_events_drain (bad ++ NL :: rest) w
        = observe_events_drain rest
            (mkWorld (log w ++ [Print "Error creating CloudEvent: " (ArgExn err)])
                     (sent w) (emitted w))).
Proof.
  intros Hbad Hreject Hclass. split.
  - intros pre post events events1 w w1 Hjson Hpre.
    rewrite stream_events_loop_app. unfold bind at 1. rewrite Hpre.
    cbn [stream_events_loop]. unfold bind at 1.
    rewrite stream_events_line_cases. cbv zeta.
    now rewrite (@not_falsy _ Hbad), Hjson, Hreject, Hclass.
  - intros rest w Hjson Hpayload Hnl.
    rewrite (@observe_events_drain_line bad rest w Hnl).
    rewrite observe_events_line_cases. cbv zeta.
    rewrite (@not_falsy _ Hbad), Hjson, Hpayload, Hreject.
    unfold observe_events_report. now rewrite Hclass.
Qed.

(* ===================================================================== *)
(** ** The events of a commit *)

Lemma format_event_ok (event : dict json) :
  has_event_keys event = true ->
  options_is_dict event = true ->
  format_event event = inr (formatted event).
Proof.
  unfold has_event_keys, options_is_dict, format_event, formatted, field, event_keys,
    dict_item, dict_in.
  cbn [forallb]. intros Hkeys Hopt.
  destruct (dict_get (lit "source") event); [|discriminate].
  destruct (dict_get (lit "subject") event); [|discriminate].
  destruct (dict_get (lit "type") event); [|discriminate].
  destruct (dict_get (lit "data") event); [|discriminate].
  cbn [sum_bind].
  destruct (dict_get (lit "options") event) as [[| | | | | |o]|]; try discriminate;
    [|reflexivity].
  cbn [py_in py_item sum_bind]. unfold dict_in, dict_item.
  destruct (dict_get (lit "store_data_as_reference") o); reflexivity.
Qed.

Lemma format_event_missing (event : dict json) :
  has_event_keys event = false ->
  exists k, In k event_keys /\ format_event event = inl (KeyError k).
Proof.
  unfold has_event_keys, format_event, event_keys, dict_item, dict_in.
  cbn [forallb In]. intros Hkeys.
  destruct (dict_get (lit "source") event); [|eauto].
  destruct (dict_get (lit "subject") event); [|eauto].
  destruct (dict_get (lit "type") event); [|eauto 6].
  destruct (dict_get (lit "data") event); [discriminate|eauto 7].
Qed.

Lemma format_events_ok (events : list (dict json)) :
  forallb has_event_keys events = true ->
  forallb options_is_dict events = true ->
  format_events events = inr (map formatted events).
Proof.
  induction events as [|event more IH]; [reflexivity|].
  cbn [forallb format_events map]. rewrite !andb_true_iff. intros [Hk Hks] [Ho Hos].
  rewrite (format_event_ok _ Hk Ho), (IH Hks Hos). reflexivity.
Qed.

Lemma format_events_missing (events : list (dict json)) :
  forallb options_is_dict events = true ->
  forallb has_event_keys events = false ->
  exists k, In k event_keys /\ format_events events = inl (KeyError k).
Proof.
  induction events as [|event more IH]; [discriminate|].
  cbn [forallb format_events]. rewrite andb_true_iff. intros [Ho Hos] Hk.
  destruct (has_event_keys event) eqn:E.
  - rewrite (format_event_ok _ E Ho). cbn [sum_bind].
    destruct (IH Hos Hk) as (k & Hin & ->). eauto.
  - destruct (format_event_missing _ E) as (k & Hin & ->). eauto.
Qed.

(** C10, as the code has it, for events whose [options], where present, are
    dictionaries: when an event lacks one of the four keys, [commit_events]
    raises [KeyError] for one of them and leaves the world as it was (nothing
    is handed to the transport, nothing printed); when every event has the
    four keys, the one request handed to the transport carries the events
    built from exactly those fields, with the options translated where an
    event has them, and the preconditions when there are any. *)
Theorem commit_events_reads_four_keys (self : Client) (events : list (dict json))
    (preconditions : option (list json)) (w : world) :
  forallb options_is_dict events = true ->
  (forallb has_event_keys events = false ->
   exists k, In k event_keys
             /\ commit_events self events preconditions w = (Raise (KeyError k), w))
  /\ (forallb has_event_keys events = true ->
      commit_events_body events preconditions
      = inr (commit_body (map formatted events) preconditions)
      /\ sent (snd (commit_events self events preconditions w))
         = sent w ++ [mkRequest POST (endpoint self "/commit")
                        (Some (JDict (commit_body (map formatted events) preconditions)))
                        (json_headers self) false]).
Proof.
  intros Hopt. split; intros Hkeys.
  - destruct (format_events_missing _ Hopt Hkeys) as (k & Hin & Hk).
    exists k. split; [exact Hin|].
    unfold commit_events, commit_events_body, bind. now rewrite Hk.
  - assert (Hbody : commit_events_body events preconditions
                    = inr (commit_body (map formatted events) preconditions)).
    { unfold commit_events_body. rewrite (format_events_ok _ Hkeys Hopt).
      cbn [sum_bind]. now destruct preconditions as [[|p ps]|]. }
    split; [exact Hbody|].
    unfold commit_events. unfold bind at 1. rewrite Hbody. cbn [lift ret].
    apply sends_reporting, sends_bind; [apply sends_send|intros r].
    apply quiet_raise_for_status.
Qed.

(* ===================================================================== *)
(** ** Chunks that decode on their own *)

Lemma utf8_run_app (st : utf8_state) (a b : bytes) :
  utf8_run st (a ++ b)
  = match utf8_run st a with
    | Some (s, st') =>
        match utf8_run st' b with
        | Some (s', st'') => Some (s ++ s', st'')
        | None => None
        end
    | None => None
    end.
Proof.
  revert st; induction a as [|x a IH]; intros st.
  - simpl. now destruct (utf8_run st b) as [[s' st'']|].
  - cbn [app utf8_run]. destruct st as [|more acc lo hi].
    + destruct (Byte.to_N x <? 128)%N.
      * rewrite IH. destruct (utf8_run Boundary a) as [[s st']|]; [|reflexivity].
        now destruct (utf8_run st' b) as [[s' st'']|].
      * destruct (utf8_lead (Byte.to_N x)); [apply IH|reflexivity].
    + destruct ((lo <=? Byte.to_N x)%N && (Byte.to_N x <=? hi)%N); [|reflexivity].
      destruct more; [|apply IH].
      rewrite IH. destruct (utf8_run Boundary a) as [[s st']|]; [|reflexivity].
      now destruct (utf8_run st' b) as [[s' st'']|].
Qed.

Lemma decode_utf8_inr (bs : bytes) (s : str) :
  decode_utf8 bs = inr s <-> utf8_run Boundary bs = Some (s, Boundary).
Proof.
  unfold decode_utf8. destruct (utf8_run Boundary bs) as [[t [|]]|]; split; congruence.
Qed.

Lemma decode_utf8_app (a b : bytes) (sa sb : str) :
  decode_utf8 a = inr sa -> decode_utf8 b = inr sb ->
  decode_utf8 (a ++ b) = inr (sa ++ sb).
Proof.
  rewrite !decode_utf8_inr. intros Ha Hb. now rewrite utf8_run_app, Ha, Hb.
Qed.

Lemma decode_utf8_concat (chunks : list bytes) (texts : list str) :
  Forall2 (fun c t => decode_utf8 c = inr t) chunks texts ->
  decode_utf8 (List.concat chunks) = inr (List.concat texts).
Proof.
  induction 1 as [|c t cs ts Hc _ IH]; [reflexivity|].
  cbn [List.concat]. now apply decode_utf8_app.
Qed.

(** Two ways of cutting one byte stream into chunks, every chunk of either
    decoding on its own, make the loop of [observe_events] do the same. *)
Theorem chunking_at_character_boundaries (chunks1 chunks2 : list bytes)
    (texts1 texts2 : list str) (w : world) :
  Forall2 (fun c t => decode_utf8 c = inr t) chunks1 texts1 ->
  Forall2 (fun c t => decode_utf8 c = inr t) chunks2 texts2 ->
  List.concat chunks1 = List.concat chunks2 ->
  observe_events_chunks chunks1 [] w = observe_events_chunks chunks2 [] w.
Proof.
  intros H1 H2 Hsame.
  rewrite (@observe_events_chunks_lines _ _ [] w H1 eq_refl).
  rewrite (@observe_events_chunks_lines _ _ [] w H2 eq_refl).
  pose proof (decode_utf8_concat H1) as D1.
  pose proof (decode_utf8_concat H2) as D2.
  rewrite Hsame in D1. rewrite D1 in D2. injection D2 as ->. reflexivity.
Qed.

(* ===================================================================== *)
(** ** What reaches the transport, and what a failing transport causes *)

Lemma quiet_q_line (line : str) (results : list json) : quiet (q_line line results).
Proof.
  unfold q_line. destruct (falsy (strip line)); [apply quiet_ret|].
  repeat quiet_step. destruct (is_JSONDecodeError _); repeat quiet_step.
Qed.

Lemma quiet_q_loop (lines : list str) (results : list json) :
  quiet (q_loop lines results).
Proof.
  revert results; induction lines as [|l ls IH]; intros results; simpl.
  - apply quiet_ret.
  - apply quiet_bind; [apply quiet_q_line|exact IH].
Qed.

Lemma authenticated_request (self : Client) (m : http_method) (path : string)
    (body : option json) (headers : dict str) (stream : bool) :
  headers = ndjson_headers self \/ headers = json_headers self
  \/ headers = plain_headers self ->
  authenticated self (mkRequest m (endpoint self path) body headers stream).
Proof.
  intros H. unfold authenticated, endpoint. cbn [req_headers req_url].
  repeat split.
  - destruct H as [-> | [-> | ->]]; reflexivity.
  - destruct H as [-> | [-> | ->]]; reflexivity.
  - now exists (lit path).
Qed.

Ltac asks_once_tac :=
  eexists; split;
  [ | apply sends_reporting, sends_bind; [apply sends_send|intros ?] ];
  [ apply authenticated_request; auto | ].

(** Whatever the service answers, every operation hands exactly one request
    to the transport: to an endpoint under [api_url/api/api_version], with the
    bearer token of the client and the user agent of the SDK.
    [commit_events] does so once its request body is built, and hands over
    nothing when building it raises. *)
Theorem one_authenticated_request (self : Client) :
  (forall subject options, asks_once self (stream_events self subject options))
  /\ (forall events preconditions request_body,
        commit_events_body events preconditions = inr request_body ->
        asks_once self (commit_events self events preconditions))
  /\ (forall events preconditions e w,
        commit_events_body events preconditions = inl e ->
        commit_events self events preconditions w = (Raise e, w))
  /\ (forall subject, asks_once self (erase_data self subject))
  /\ asks_once self (audit self)
  /\ asks_once self (ping self)
  /\ (forall query, asks_once self (q self query))
  /\ (forall query, asks_once self (query_events self query))
  /\ (forall subject options, asks_once self (observe_events self subject options)).
Proof.
  repeat split; intros.
  - unfold stream_events. asks_once_tac.
    apply quiet_bind; [apply quiet_raise_for_status|intros _].
    destruct (falsy _ || str_eqb _ _); [apply quiet_ret|apply quiet_stream_events_loop].
  - unfold commit_events.
    exists (mkRequest POST (endpoint self "/commit") (Some (JDict request_body))
                      (json_headers self) false).
    split; [apply authenticated_request; auto|].
    intros w. unfold bind at 1. rewrite H. cbn [lift ret].
    apply sends_reporting, sends_bind; [apply sends_send|intros ?].
    apply quiet_raise_for_status.
  - unfold commit_events, bind. now rewrite H.
  - unfold erase_data. asks_once_tac. apply quiet_raise_for_status.
  - unfold audit. asks_once_tac.
    apply quiet_bind; [apply quiet_raise_for_status|intros _; apply quiet_ret].
  - unfold ping. asks_once_tac.
    apply quiet_bind; [apply quiet_raise_for_status|intros _; apply quiet_ret].
  - unfold q. asks_once_tac.
    apply quiet_bind; [apply quiet_raise_for_status|intros _].
    destruct (falsy _ || str_eqb _ _); [apply quiet_ret|apply quiet_q_loop].
  - unfold query_events, q. asks_once_tac.
    apply quiet_bind; [apply quiet_raise_for_status|intros _].
    destruct (falsy _ || str_eqb _ _); [apply quiet_ret|apply quiet_q_loop].
  - unfold observe_events. asks_once_tac.
    apply quiet_bind; [apply quiet_raise_for_status|intros _].
    apply quiet_observe_events_chunks.
Qed.

(** When the transport itself fails (no response; an exception other than
    [HTTPStatusError]), every operation prints its own "Error while ..." line
    with the exception and raises that same exception, after the one
    request. *)
Theorem transport_failure_is_reported (e : exn) (self : Client) (w : world) :
  (forall r, server r = Failed e) ->
  (forall status reason, e <> HTTPStatusError status reason) ->
  (forall subject options,
      stream_events self subject options w
      = failed "Error while streaming events: " e
          (mkRequest POST (endpoint self "/stream")
             (Some (JDict (stream_events_body subject options)))
             (ndjson_headers self) false) w)
  /\ (forall events preconditions request_body,
        commit_events_body events preconditions = inr request_body ->
        commit_events self events preconditions w
        = failed "Error while committing events: " e
            (mkRequest POST (endpoint self "/commit")
               (Some (JDict request_body)) (json_headers self) false) w)
  /\ (forall subject,
        erase_data self subject w
        = failed "Error while erasing data: " e
            (mkRequest POST (endpoint self "/erase")
               (Some (JDict [(lit "subject", JStr subject)]))
               (json_headers self) false) w)
  /\ audit self w
     = failed "Error while running audit: " e
         (mkRequest GET (endpoint self "/status/audit") None
            (plain_headers self) false) w
  /\ ping self w
     = failed "Error while pinging: " e
         (mkRequest GET (endpoint self "/status/ping") None
            (plain_headers self) false) w
  /\ (forall query,
        q self query w
        = failed "Error while querying: " e
            (mkRequest POST (endpoint self "/q")
               (Some (JDict [(lit "query", JStr query)]))
               (ndjson_headers self) false) w)
  /\ (forall subject options,
        observe_events self subject options w
        = failed "Error while observing events: " e
            (mkRequest POST (endpoint self "/observe")
               (Some (JDict (observe_events_body subject options)))
               (ndjson_headers self) true) w).
Proof.
  intros Hserver Hclass.
  repeat split; intros;
    unfold stream_events, commit_events, erase_data, audit, ping, q,
      observe_events, failed;
    try match goal with H : commit_events_body _ _ = inr _ |- _ =>
          unfold bind at 1; rewrite H; cbn [lift ret] end;
    unfold reporting, catch, bind, send; rewrite !Hserver;
    destruct e; try reflexivity; exfalso; eapply Hclass; reflexivity.
Qed.

(* ===================================================================== *)
(** ** Construction, when it succeeds *)

(** [Client.__init__] returns a client exactly when each of the three
    settings has a value once config object and environment are combined,
    and the client then holds the combined settings. *)
Theorem Client_init_succeeds_iff (environ : dict str) (config : option (dict str))
    (self : Client) :
  Client_init environ config = Ret self
  <-> missing_settings (settings environ config) = []
      /\ self = settings environ config.
Proof using.
  pose proof (missing_setting_unset environ config) as (H1 & H2 & H3).
  unfold Client_init, check_required_env, missing_settings.
  cbn [filter required_env_vars].
  destruct (falsy (api_url (settings environ config)));
    [rewrite (H1 eq_refl)|clear H1];
    (destruct (falsy (api_version (settings environ config)));
     [rewrite (H2 eq_refl)|clear H2]);
    (destruct (falsy (auth_token (settings environ config)));
     [rewrite (H3 eq_refl)|clear H3]);
    cbn [orb app];
    repeat match goal with
      | |- context [if env_unset ?e ?v then _ else _] => destruct (env_unset e v)
      end;
    split; try discriminate; try (intros [? _]; discriminate).
  - intros H. injection H as <-. now split.
  - now intros [_ ->].
Qed.

(** A value of the config object, when it is not the empty string, wins
    over the environment: a config object with the three values gives the
    client whatever the environment holds. And a config object in which each
    of the three values is absent or the empty string behaves as no config
    object at all. *)
Theorem config_and_environment (environ : dict str) (cfg : dict str) :
  (forall url version token,
      dict_get (lit "api_url") cfg = Some url -> url <> [] ->
      dict_get (lit "api_version") cfg = Some version -> version <> [] ->
      dict_get (lit "auth_token") cfg = Some token -> token <> [] ->
      Client_init environ (Some cfg) = Ret (mkClient url version token))
  /\ ((dict_get (lit "api_url") cfg = None
       \/ dict_get (lit "api_url") cfg = Some []) ->
      (dict_get (lit "api_version") cfg = None
       \/ dict_get (lit "api_version") cfg = Some []) ->
      (dict_get (lit "auth_token") cfg = None
       \/ dict_get (lit "auth_token") cfg = Some []) ->
      Client_init environ (Some cfg) = Client_init environ None).
Proof using.
  split.
  - intros url version token Hu Hun Hv Hvn Ht Htn.
    unfold Client_init, settings. destruct cfg as [|kv cfg']; [discriminate|].
    unfold config_or_env. rewrite Hu, Hv, Ht.
    cbn [api_url api_version auth_token].
    destruct url; [congruence|]. destruct version; [congruence|].
    destruct token; [congruence|]. reflexivity.
  - intros Hu Hv Ht.
    assert (E : settings environ (Some cfg) = settings environ None).
    { unfold settings. destruct cfg as [|kv cfg']; [reflexivity|].
      unfold config_or_env.
      destruct Hu as [-> | ->], Hv as [-> | ->], Ht as [-> | ->]; reflexivity. }
    unfold Client_init. now rewrite E.
Qed.

(* ===================================================================== *)
(** ** What the loops return *)

Lemma nonblank_cons (l : str) (ls : list str) :
  nonblank (l :: ls)
  = if falsy (strip l) then nonblank ls else strip l :: nonblank ls.
Proof. unfold nonblank. cbn [map filter]. now destruct (falsy (strip l)). Qed.

Lemma nonblank_fixed (lines : list str) :
  Forall (fun l => strip l = l /\ l <> []) (nonblank lines).
Proof.
  induction lines as [|l ls IH]; [constructor|].
  rewrite nonblank_cons. destruct (falsy (strip l)) eqn:E; [exact IH|].
  constructor; [|exact IH]. split; [apply strip_idem|].
  intros H. now rewrite H in E.
Qed.

Lemma nonblank_spaces (s : str) :
  strip s = [] -> nonblank (split NL s) = [].
Proof.
  intros H. apply strip_nil_spaces in H.
  now rewrite <- (app_nil_l s), nonblank_split_spaces_after.
Qed.

Lemma blank_test (raw_text : str) :
  falsy raw_text || str_eqb (strip raw_text) [] = true <-> strip raw_text = [].
Proof.
  rewrite orb_true_iff, str_eqb_eq. split; [|auto].
  intros [H | H]; [|exact H]. now destruct raw_text.
Qed.

Lemma q_loop_decodes (lines : list str) :
  (forall s e, json_loads s = inl e -> is_JSONDecodeError e = true) ->
  forall results w,
  exists w',
    q_loop lines results w = (Ret (results ++ decoded_values lines), w')
    /\ sent w' = sent w /\ emitted w' = emitted w
    /\ List.length (log w')
       = (List.length (log w) + 2 * List.length (undecodable lines))%nat.
Proof.
  intros Hclass. unfold decoded_values, undecodable.
  induction lines as [|l ls IH]; intros results w.
  - exists w. cbn. rewrite app_nil_r. repeat split. lia.
  - cbn [q_loop]. unfold bind. rewrite q_line_cases. cbv zeta.
    rewrite nonblank_cons. destruct (falsy (strip l)); [apply IH|].
    cbn [flat_map filter].
    destruct (json_loads (strip l)) as [e|v] eqn:E.
    + rewrite (Hclass _ _ E).
      destruct (IH results (parse_report "Error while parsing result: " (strip l) e w))
        as (w' & -> & Hs & He & Hl).
      exists w'. repeat split; [exact Hs|exact He|].
      rewrite Hl. cbn [parse_report log List.length]. rewrite length_app. cbn. lia.
    + destruct (IH (results ++ [v]) w) as (w' & -> & Hs & He & Hl).
      exists w'. rewrite <- app_assoc. repeat split; assumption.
Qed.

(** On a 2xx answer, with a [json.loads] that raises nothing but
    [JSONDecodeError], [q] always returns: the values of the non-blank lines
    of the body that decode, in the order of the lines, none twice and none
    left out; and it prints two lines for each line that does not decode. *)
Theorem q_returns_decoded_lines (resp : response) (self : Client) (query : str)
    (w : world) :
  (forall r, server r = Responded resp) ->
  is_success resp = true ->
  (forall s e, json_loads s = inl e -> is_JSONDecodeError e = true) ->
  exists w',
    q self query w = (Ret (decoded_values (split NL (text resp))), w')
    /\ emitted w' = emitted w
    /\ List.length (log w')
       = (List.length (log w)
          + 2 * List.length (undecodable (split NL (text resp))))%nat.
Proof.
  intros Hserver Hok Hclass. unfold q. run_request Hserver. rewrite Hok. cbn [ret].
  destruct (falsy (text resp) || str_eqb (strip (text resp)) []) eqn:E.
  - apply blank_test in E. unfold decoded_values, undecodable.
    rewrite (nonblank_spaces _ E). cbn. eexists. repeat split. cbn. lia.
  - rewrite q_loop_strip.
    destruct (q_loop_decodes (split NL (text resp)) Hclass []
                (mkWorld (log w)
                   (sent w ++ [mkRequest POST (endpoint self "/q")
                                 (Some (JDict [(lit "query", JStr query)]))
                                 (ndjson_headers self) false])
                   (emitted w))) as (w' & -> & Hs & He & Hl).
    exists w'. repeat split; assumption.
Qed.

Lemma stream_events_loop_accepts (lines : list str) (events : list Event) :
  Forall2 (fun l event => exists v, json_loads l = inr v /\ CloudEvent v = inr event)
          lines events ->
  Forall (fun l => strip l = l /\ l <> []) lines ->
  forall acc w, stream_events_loop lines acc w = (Ret (acc ++ events), w).
Proof.
  induction 1 as [|l event ls evs (v & Hv & He) _ IH]; intros Hfix acc w.
  - cbn. now rewrite app_nil_r.
  - inversion Hfix as [|? ? [Hs Hn] Hrest]; subst.
    cbn [stream_events_loop]. unfold bind. rewrite stream_events_line_cases.
    cbv zeta. rewrite Hs, (@not_falsy _ Hn), Hv, He.
    rewrite (IH Hrest). now rewrite <- app_assoc.
Qed.

(** On a 2xx answer in which every non-blank line decodes to an object that
    [CloudEvent] accepts, [stream_events] returns the event of every such
    line, in the order of the lines, and prints nothing. *)
Theorem stream_events_returns_every_event (resp : response) (self : Client)
    (subject : str) (options : option (dict json)) (events : list Event) (w : world) :
  (forall r, server r = Responded resp) ->
  is_success resp = true ->
  Forall2 (fun l event => exists v, json_loads l = inr v /\ CloudEvent v = inr event)
          (nonblank (split NL (text resp))) events ->
  stream_events self subject options w
  = (Ret events,
     mkWorld (log w)
             (sent w ++ [mkRequest POST (endpoint self "/stream")
                           (Some (JDict (stream_events_body subject options)))
                           (ndjson_headers self) false])
             (emitted w)).
Proof.
  intros Hserver Hok Hall. unfold stream_events. run_request Hserver. rewrite Hok.
  cbn [ret].
  destruct (falsy (text resp) || str_eqb (strip (text resp)) []) eqn:E.
  - apply blank_test in E. rewrite (nonblank_spaces _ E) in Hall.
    inversion Hall. reflexivity.
  - rewrite stream_events_loop_strip, <- stream_events_loop_nonblank.
    rewrite (stream_events_loop_accepts Hall (nonblank_fixed _)). reflexivity.
Qed.

Lemma observe_events_line_emits (line : str) (w : world) :
  emitted (snd (observe_events_line line w)) = emitted w ++ observed line.
Proof.
  rewrite observe_events_line_cases. unfold observed, observe_events_report. cbv zeta.
  destruct (falsy (strip line)); [now rewrite app_nil_r|].
  destruct (json_loads _) as [e|v];
    [destruct (is_JSONDecodeError e); cbn; now rewrite app_nil_r|].
  destruct (is_empty_payload v) as [e|[|]];
    [destruct (is_JSONDecodeError e); cbn; now rewrite app_nil_r
    |cbn; now rewrite app_nil_r|].
  destruct (CloudEvent v) as [e|event];
    [destruct (is_JSONDecodeError e); cbn; now rewrite app_nil_r|reflexivity].
Qed.

Lemma observe_events_each_emits (lines : list str) (w : world) :
  emitted (snd (observe_events_each lines w)) = emitted w ++ flat_map observed lines.
Proof.
  revert w; induction lines as [|l ls IH]; intros w.
  - cbn. now rewrite app_nil_r.
  - cbn [observe_events_each flat_map]. unfold bind.
    pose proof (observe_events_line_emits l w) as Hl.
    destruct (observe_events_line_returns l w) as (w1 & E). rewrite E in Hl |- *.
    cbn [snd] in Hl. rewrite IH, Hl. now rewrite app_assoc.
Qed.

(** On a 2xx answer whose chunks each decode, [observe_events] finishes
    without raising, and the events it has yielded are those of the
    newline-terminated lines of the decoded stream, in the order of the
    lines: nothing is reordered, repeated or held back. *)
Theorem observe_events_yields_in_order (resp : response) (texts : list str)
    (self : Client) (subject : str) (options : option (dict json)) (w : world) :
  (forall r, server r = Responded resp) ->
  is_success resp = true ->
  Forall2 (fun c t => decode_utf8 c = inr t) (aiter_bytes resp) texts ->
  fst (observe_events self subject options w) = Ret tt
  /\ emitted (snd (observe_events self subject options w))
     = emitted w ++ flat_map observed (removelast (split NL (List.concat texts))).
Proof.
  intros Hserver Hok Hdec. unfold observe_events. run_request Hserver. rewrite Hok.
  cbn [ret]. rewrite (@observe_events_chunks_lines _ _ [] _ Hdec eq_refl).
  rewrite app_nil_l.
  pose proof (observe_events_each_emits
                (removelast (split NL (List.concat texts)))
                (mkWorld (log w)
                   (sent w ++ [mkRequest POST (endpoint self "/observe")
                                 (Some (JDict (observe_events_body subject options)))
                                 (ndjson_headers self) true])
                   (emitted w))) as Hem.
  destruct (observe_events_each_returns
              (removelast (split NL (List.concat texts)))
              (mkWorld (log w)
                 (sent w ++ [mkRequest POST (endpoint self "/observe")
                               (Some (JDict (observe_events_body subject options)))
                               (ndjson_headers self) true])
                 (emitted w))) as (w1 & E).
  rewrite E in Hem |- *. cbn [fst snd] in Hem |- *. now split.
Qed.


(** A line that is blank (nothing but white space) is passed over without
    a trace in all three loops: the outcome is that of the input without
    it. *)
Theorem blank_line_is_skipped (blank : str) :
  strip blank = [] ->
  (forall pre post events w,
      stream_events_loop (pre ++ blank :: post) events w
      = stream_events_loop (pre ++ post) events w)
  /\ (forall pre post results w,
        q_loop (pre ++ blank :: post) results w = q_loop (pre ++ post) results w)
  /\ (forall rest w,
        split1 NL blank = None ->
        observe_events_drain (blank ++ NL :: rest) w = observe_events_drain rest w).
Proof.
  intros Hblank. repeat split.
  - intros pre post events w. rewrite !stream_events_loop_app. unfold bind.
    destruct (stream_events_loop pre events w) as [[evs|e] w1]; [|reflexivity].
    cbn [stream_events_loop]. unfold bind. rewrite stream_events_line_cases.
    cbv zeta. now rewrite Hblank.
  - intros pre post results w. rewrite !q_loop_app. unfold bind.
    destruct (q_loop pre results w) as [[rs|e] w1]; [|reflexivity].
    cbn [q_loop]. unfold bind. rewrite q_line_cases. cbv zeta. now rewrite Hblank.
  - intros rest w Hnl. rewrite (@observe_events_drain_line blank rest w Hnl).
    rewrite observe_events_line_cases. cbv zeta. now rewrite Hblank.
Qed.

(* ===================================================================== *)
(** ** The SSE prefix, the keep-alive test, the first missing key *)

Lemma startswith_app (p x : str) : startswith p (p ++ x) = true.
Proof.
  induction p as [|c p IH]; [reflexivity|].
  cbn. now rewrite N.eqb_refl, IH.
Qed.

Lemma rstrip_fixed (x : str) : strip x = x -> rstrip x = x.
Proof.
  intros H. rewrite <- H at 1. unfold strip. rewrite rstrip_idem. exact H.
Qed.

Lemma strip_prefixed (c : N) (p x : str) :
  isspace c = false -> strip x = x -> x <> [] ->
  strip ((c :: p) ++ x) = (c :: p) ++ x.
Proof.
  intros Hc Hx Hn. unfold strip.
  replace (lstrip ((c :: p) ++ x)) with ((c :: p) ++ x) by (cbn; now rewrite Hc).
  unfold rstrip. rewrite rev_app_distr, lstrip_app.
  assert (E : lstrip (rev x) = rev x).
  { apply rstrip_fixed in Hx. unfold rstrip in Hx.
    rewrite <- Hx at 2. now rewrite rev_involutive. }
  rewrite E. destruct (rev x) as [|d r] eqn:Er.
  - exfalso. apply Hn. rewrite <- (rev_involutive x), Er. reflexivity.
  - rewrite <- Er, <- rev_app_distr. apply rev_involutive.
Qed.

Lemma sse_data_prefixed (x : str) :
  strip x = x -> x <> [] ->
  strip (lit "data: " ++ x) = lit "data: " ++ x
  /\ sse_data (lit "data: " ++ x) = x.
Proof.
  intros Hx Hn. split.
  - exact (@strip_prefixed 100%N (lit "ata: ") x eq_refl Hx Hn).
  - unfold sse_data. now rewrite startswith_app.
Qed.


(** The test for the keep-alive object is exact. *)
Lemma is_empty_payload_true (json_data : json) :
  is_empty_payload json_data = inr true <-> json_data = keepalive.
Proof.
  split; [|intros ->; reflexivity].
  unfold is_empty_payload, keepalive.
  destruct json_data as [| | | | | |d]; cbn [py_get sum_bind]; try discriminate.
  destruct d as [|[k v] d']; cbn [dict_get]; [discriminate|].
  destruct (str_eqb (lit "payload") k) eqn:E.
  - apply str_eqb_eq in E. subst k.
    destruct v as [| | | |[|c s]| |]; try discriminate.
    destruct d' as [|kv d']; cbn [py_len sum_bind List.length Nat.eqb];
      [reflexivity|discriminate].
  - destruct d' as [|kv d']; [cbn; discriminate|].
    destruct (dict_get (lit "payload") (kv :: d')) as [[| | | |[|c s]| |]|];
      cbn [py_len sum_bind List.length Nat.eqb]; discriminate.
Qed.

Lemma world_changed_log (w : world) (entries : list log_entry) :
  entries <> [] -> mkWorld (log w ++ entries) (sent w) (emitted w) <> w.
Proof.
  intros Hn H. apply (f_equal log) in H. cbn in H.
  apply (f_equal (@List.length _)) in H. rewrite length_app in H.
  destruct entries; [congruence|]. cbn in H. lia.
Qed.

Lemma world_changed_emitted (w : world) (event : Event) :
  mkWorld (log w) (sent w) (emitted w ++ [event]) <> w.
Proof.
  intros H. apply (f_equal emitted) in H. cbn in H.
  apply (f_equal (@List.length _)) in H. rewrite length_app in H. cbn in H. lia.
Qed.



Lemma format_event_first_missing (event : dict json) (k : str) :
  first_missing event = Some k -> format_event event = inl (KeyError k).
Proof.
  unfold first_missing, format_event, event_keys, dict_item, dict_in.
  cbn [find].
  destruct (dict_get (lit "source") event); cbn [negb sum_bind];
    [|intros H; now injection H as <-].
  destruct (dict_get (lit "subject") event); cbn [negb sum_bind];
    [|intros H; now injection H as <-].
  destruct (dict_get (lit "type") event); cbn [negb sum_bind];
    [|intros H; now injection H as <-].
  destruct (dict_get (lit "data") event); cbn [negb sum_bind];
    [discriminate|intros H; now injection H as <-].
Qed.

(** The [KeyError] of [commit_events] names the first key, in the order
    source, subject, type, data, that the first incomplete event lacks; the
    events after it are not looked at, and nothing is sent or printed. *)
Theorem commit_events_names_first_missing_key (self : Client)
    (pre post : list (dict json)) (event : dict json) (k : str)
    (preconditions : option (list json)) (w : world) :
  forallb has_event_keys pre = true ->
  forallb options_is_dict pre = true ->
  first_missing event = Some k ->
  commit_events self (pre ++ event :: post) preconditions w = (Raise (KeyError k), w).
Proof.
  intros Hkeys Hopt Hk.
  assert (E : format_events (pre ++ event :: post) = inl (KeyError k)).
  { revert Hkeys Hopt. induction pre as [|p pre IH]; cbn [forallb app format_events].
    - intros _ _. now rewrite (format_event_first_missing _ Hk).
    - rewrite !andb_true_iff. intros [Hp Hps] [Ho Hos].
      rewrite (format_event_ok _ Hp Ho). cbn [sum_bind]. now rewrite (IH Hps Hos). }
  unfold commit_events, commit_events_body, bind. now rewrite E.
Qed.

(* ===================================================================== *)
(** ** Lines that are not JSON, keep-alive objects *)

Lemma world_eta (w : world) : mkWorld (log w) (sent w) (emitted w) = w.
Proof. now destruct w. Qed.

Lemma observe_events_line_strip (line : str) :
  observe_events_line (strip line) = observe_events_line line.
Proof. unfold observe_events_line. now rewrite strip_idem. Qed.

(** The [while] loop looks at a line stripped, and skips it when that leaves
    nothing. *)
Lemma observe_events_each_nonblank (lines : list str) (w : world) :
  observe_events_each (nonblank lines) w = observe_events_each lines w.
Proof.
  revert w; induction lines as [|l ls IH]; intros w; [reflexivity|].
  rewrite nonblank_cons. destruct (falsy (strip l)) eqn:E.
  - cbn [observe_events_each]. rewrite IH. unfold bind, observe_events_line.
    now rewrite E.
  - cbn [observe_events_each]. unfold bind. rewrite observe_events_line_strip.
    destruct (observe_events_line l w) as [[[]|e] w1]; [apply IH|reflexivity].
Qed.

(** The three loops on lines each of which is accepted or is not JSON. *)
Lemma stream_events_loop_outcomes (lines : list str) (outcomes : list (outcome Event)) :
  Forall2 stream_events_outcome lines outcomes ->
  Forall (fun l => strip l = l /\ l <> []) lines ->
  forall acc w,
    stream_events_loop lines acc w
    = (Ret (acc ++ accepted outcomes),
       mkWorld (log w ++ decode_errors "Error while parsing event: " lines outcomes)
               (sent w) (emitted w)).
Proof.
  induction 1 as [|l o ls os Ho _ IH]; intros Hfix acc w.
  - cbn. now rewrite !app_nil_r, world_eta.
  - inversion Hfix as [|? ? [Hs Hn] Hrest]; subst.
    cbn [stream_events_loop]. unfold bind. rewrite stream_events_line_cases.
    cbv zeta. rewrite Hs, (@not_falsy _ Hn).
    destruct o as [event|err]; cbn [stream_events_outcome] in Ho.
    + destruct Ho as (v & Hv & He). rewrite Hv, He, (IH Hrest).
      unfold accepted. cbn [flat_map decode_errors]. now rewrite <- app_assoc.
    + destruct Ho as (Hv & Hc). rewrite Hv, Hc, (IH Hrest).
      unfold accepted, parse_report. cbn [flat_map decode_errors log sent emitted app].
      now rewrite <- app_assoc.
Qed.

Lemma q_loop_outcomes (lines : list str) (outcomes : list (outcome json)) :
  Forall2 q_outcome lines outcomes ->
  Forall (fun l => strip l = l /\ l <> []) lines ->
  forall acc w,
    q_loop lines acc w
    = (Ret (acc ++ accepted outcomes),
       mkWorld (log w ++ decode_errors "Error while parsing result: " lines outcomes)
               (sent w) (emitted w)).
Proof.
  induction 1 as [|l o ls os Ho _ IH]; intros Hfix acc w.
  - cbn. now rewrite !app_nil_r, world_eta.
  - inversion Hfix as [|? ? [Hs Hn] Hrest]; subst.
    cbn [q_loop]. unfold bind. rewrite q_line_cases.
    cbv zeta. rewrite Hs, (@not_falsy _ Hn).
    destruct o as [v|err]; cbn [q_outcome] in Ho.
    + rewrite Ho, (IH Hrest).
      unfold accepted. cbn [flat_map decode_errors]. now rewrite <- app_assoc.
    + destruct Ho as (Hv & Hc). rewrite Hv, Hc, (IH Hrest).
      unfold accepted, parse_report. cbn [flat_map decode_errors log sent emitted app].
      now rewrite <- app_assoc.
Qed.

Lemma observe_events_each_outcomes (lines : list str) (outcomes : list (outcome Event)) :
  Forall2 observe_events_outcome lines outcomes ->
  Forall (fun l => strip l = l /\ l <> []) lines ->
  forall w,
    observe_events_each lines w
    = (Ret tt,
       mkWorld (log w ++ decode_errors "Error while parsing event: " lines outcomes)
               (sent w) (emitted w ++ accepted outcomes)).
Proof.
  induction 1 as [|l o ls os Ho _ IH]; intros Hfix w.
  - cbn. now rewrite !app_nil_r, world_eta.
  - inversion Hfix as [|? ? [Hs Hn] Hrest]; subst.
    cbn [observe_events_each]. unfold bind. rewrite observe_events_line_cases.
    cbv zeta. rewrite Hs, (@not_falsy _ Hn).
    destruct o as [event|err]; cbn [observe_events_outcome] in Ho.
    + destruct Ho as (v & Hv & Hp & He). rewrite Hv, Hp, He, (IH Hrest).
      unfold accepted. cbn [flat_map decode_errors log sent emitted app].
      now rewrite <- app_assoc.
    + destruct Ho as (Hv & Hc). rewrite Hv, (IH Hrest).
      unfold accepted, observe_events_report. rewrite Hc.
      cbn [flat_map decode_errors log sent emitted app].
      now rewrite <- app_assoc.
Qed.


(** The loop of [observe_events] on keep-alive lines: nothing happens. *)
Lemma observe_events_each_keepalive (lines : list str) :
  Forall (fun l => json_loads (sse_data l) = inr keepalive) lines ->
  Forall (fun l => strip l = l /\ l <> []) lines ->
  forall w, observe_events_each lines w = (Ret tt, w).
Proof.
  induction 1 as [|l ls Hl _ IH]; intros Hfix w; [reflexivity|].
  inversion Hfix as [|? ? [Hs Hn] Hrest]; subst.
  cbn [observe_events_each]. unfold bind. rewrite observe_events_line_cases.
  cbv zeta. rewrite Hs, (@not_falsy _ Hn), Hl.
  change (is_empty_payload keepalive) with (@inr exn bool true). cbv beta iota.
  exact (IH Hrest w).
Qed.

(** The newline-terminated lines of a text with one more line in it. *)
Lemma removelast_split_line (pre line post : str) :
  pre = [] \/ (exists p, pre = p ++ [NL]) ->
  split1 NL line = None ->
  removelast (split NL (pre ++ line ++ NL :: post))
  = removelast (split NL pre) ++ line :: removelast (split NL post).
Proof.
  intros Hpre Hnl.
  rewrite removelast_split_app, (@last_split_terminated NL pre Hpre), app_nil_l.
  rewrite split_app_sep, (@split_no_sep NL line Hnl).
  destruct (split NL post) as [|l ls] eqn:E; [now apply split_nonempty in E|].
  reflexivity.
Qed.

(** C3: the object whose only field is [payload] with the empty string.
    [observe_events]: a line of the decoded stream that holds it leaves no
    trace, whatever lines stand before and after it: the run is that of the
    stream without the line, so no event is yielded and nothing is printed
    for it; on a stream of such lines alone the operation ends having
    yielded and printed nothing. [stream_events]: the object gets no such
    treatment; it is handed to [CloudEvent] like every decoded value: if the
    constructor accepts it, its event is in the list returned, at the place
    of its line; if the constructor rejects it, the rejection leaves
    [stream_events], which prints it and returns no event. *)
Theorem keepalive_is_dropped_by_observe_events_only (resp : response)
    (self : Client) (subject : str) (options : option (dict json)) (w : world) :
  (forall r, server r = Responded resp) ->
  is_success resp = true ->
  (forall pre line post texts,
      Forall2 (fun c t => decode_utf8 c = inr t) (aiter_bytes resp) texts ->
      List.concat texts = pre ++ line ++ NL :: post ->
      pre = [] \/ (exists p, pre = p ++ [NL]) ->
      split1 NL line = None ->
      strip line <> [] ->
      json_loads (sse_data (strip line)) = inr keepalive ->
      observe_events self subject options w
      = observe_events_each (removelast (split NL pre) ++ removelast (split NL post))
          (mkWorld (log w)
             (sent w ++ [mkRequest POST (endpoint self "/observe")
                           (Some (JDict (observe_events_body subject options)))
                           (ndjson_headers self) true])
             (emitted w)))
  /\ (forall texts,
        Forall2 (fun c t => decode_utf8 c = inr t) (aiter_bytes resp) texts ->
        Forall (fun l => json_loads (sse_data l) = inr keepalive)
               (nonblank (removelast (split NL (List.concat texts)))) ->
        observe_events self subject options w
        = (Ret tt,
           mkWorld (log w)
             (sent w ++ [mkRequest POST (endpoint self "/observe")
                           (Some (JDict (observe_events_body subject options)))
                           (ndjson_headers self) true])
             (emitted w)))
  /\ (forall pre line post events1 events2 event,
        nonblank (split NL (text resp)) = pre ++ line :: post ->
        Forall2 (fun l e => exists v, json_loads l = inr v /\ CloudEvent v = inr e)
                pre events1 ->
        Forall2 (fun l e => exists v, json_loads l = inr v /\ CloudEvent v = inr e)
                post events2 ->
        json_loads line = inr keepalive ->
        CloudEvent keepalive = inr event ->
        stream_events self subject options w
        = (Ret (events1 ++ event :: events2),
           mkWorld (log w)
             (sent w ++ [mkRequest POST (endpoint self "/stream")
                           (Some (JDict (stream_events_body subject options)))
                           (ndjson_headers self) false])
             (emitted w)))
  /\ (forall pre line post events1 err,
        nonblank (split NL (text resp)) = pre ++ line :: post ->
        Forall2 (fun l e => exists v, json_loads l = inr v /\ CloudEvent v = inr e)
                pre events1 ->
        json_loads line = inr keepalive ->
        CloudEvent keepalive = inl err ->
        is_JSONDecodeError err = false ->
        stream_events self subject options w
        = (Raise err,
           mkWorld (log w ++ [reported "Error while streaming events: " err])
             (sent w ++ [mkRequest POST (endpoint self "/stream")
                           (Some (JDict (stream_events_body subject options)))
                           (ndjson_headers self) false])
             (emitted w))).
Proof.
  intros Hserver Hok. split; [|split; [|split]].
  - intros pre line post texts Hdec Hcat Hpre Hnl Hline Hjson.
    unfold observe_events. run_request Hserver. rewrite Hok. cbn [ret].
    rewrite (@observe_events_chunks_lines _ _ [] _ Hdec eq_refl), app_nil_l, Hcat.
    rewrite (@removelast_split_line pre line post Hpre Hnl).
    rewrite !observe_events_each_app. unfold bind.
    match goal with
    | |- context [observe_events_each (removelast (split NL pre)) ?w'] =>
        destruct (observe_events_each_returns (removelast (split NL pre)) w')
          as (w1 & ->)
    end.
    cbn [observe_events_each]. unfold bind. rewrite observe_events_line_cases.
    cbv zeta. rewrite (@not_falsy _ Hline), Hjson.
    change (is_empty_payload keepalive) with (@inr exn bool true). cbv beta iota.
    now destruct (observe_events_each_returns (removelast (split NL post)) w1)
      as (w2 & ->).
  - intros texts Hdec Hall. unfold observe_events. run_request Hserver.
    rewrite Hok. cbn [ret].
    rewrite (@observe_events_chunks_lines _ _ [] _ Hdec eq_refl), app_nil_l.
    rewrite <- observe_events_each_nonblank.
    rewrite (observe_events_each_keepalive Hall (nonblank_fixed _)). reflexivity.
  - intros pre line post events1 events2 event Hlines Hpre Hpost Hjson Hevent.
    unfold stream_events. run_request Hserver. rewrite Hok. cbn [ret].
    destruct (falsy (text resp) || str_eqb (strip (text resp)) []) eqn:E.
    + apply blank_test in E. rewrite (nonblank_spaces _ E) in Hlines.
      now destruct pre.
    + rewrite stream_events_loop_strip, <- stream_events_loop_nonblank.
      pose proof (nonblank_fixed (split NL (text resp))) as Hfix.
      rewrite Hlines in Hfix |- *.
      assert (Hall : Forall2 (fun l e => exists v, json_loads l = inr v
                                                   /\ CloudEvent v = inr e)
                             (pre ++ line :: post) (events1 ++ event :: events2)).
      { apply Forall2_app; [exact Hpre|]. constructor; [|exact Hpost].
        exists keepalive. now split. }
      rewrite (stream_events_loop_accepts Hall Hfix). reflexivity.
  - intros pre line post events1 err Hlines Hpre Hjson Hreject Hclass.
    unfold stream_events. run_request Hserver. rewrite Hok. cbn [ret].
    destruct (falsy (text resp) || str_eqb (strip (text resp)) []) eqn:E.
    + apply blank_test in E. rewrite (nonblank_spaces _ E) in Hlines.
      now destruct pre.
    + rewrite stream_events_loop_strip, <- stream_events_loop_nonblank.
      pose proof (nonblank_fixed (split NL (text resp))) as Hfix.
      rewrite Hlines in Hfix |- *.
      apply Forall_app in Hfix as [Hfix1 Hfix2].
      inversion Hfix2 as [|? ? [Hs Hn] _]; subst.
      rewrite stream_events_loop_app. unfold bind.
      rewrite (stream_events_loop_accepts Hpre Hfix1).
      cbn [stream_events_loop]. unfold bind. rewrite stream_events_line_cases.
      cbv zeta. rewrite Hs, (@not_falsy _ Hn), Hjson, Hreject, Hclass.
      destruct err; try discriminate; reflexivity.
Qed.

End Client.

(* ===================================================================== *)
(** ** The operations run on concrete inputs *)

Definition w0 : world Ref.Event := mkWorld [] [] [].

Definition observing (r : response) : res unit * world Ref.Event :=
  observe_events Ref.json_loads Ref.CloudEvent (Sample.answering r) Sample.self
                 (lit "/x") None w0.

Definition streaming (r : response) : res (list Ref.Event) * world Ref.Event :=
  stream_events Ref.json_loads Ref.CloudEvent (Sample.answering r) Sample.self
                (lit "/x") None w0.

Definition querying (r : response) : res (list json) * world Ref.Event :=
  q Ref.json_loads (Sample.answering r) Sample.self (lit "STREAM e FROM events") w0.

Definition committing (events : list (dict json)) : res unit * world Ref.Event :=
  commit_events (Sample.answering Sample.not_found) Sample.self events None w0.

(** C1 fails on the code: a line that holds a two-octet character is
    decoded and yields its event when it arrives as one chunk; cut between
    the two octets, the first chunk does not decode, [UnicodeDecodeError]
    leaves the generator and no event is yielded. *)
Theorem chunk_boundary_inside_character :
  Sample.accented_head ++ Sample.accented_tail = Sample.accented_line
  /\ fst (observing (Sample.ok_chunks [Sample.accented_line])) = Ret tt
  /\ List.length (emitted (snd (observing (Sample.ok_chunks [Sample.accented_line]))))
     = 1%nat
  /\ fst (observing (Sample.ok_chunks [Sample.accented_head; Sample.accented_tail]))
     = Raise (UnicodeDecodeError (lit "unexpected end of data"))
  /\ emitted (snd (observing (Sample.ok_chunks [Sample.accented_head; Sample.accented_tail])))
     = []
  /\ log (snd (observing (Sample.ok_chunks [Sample.accented_head; Sample.accented_tail])))
     = [Print "Error while observing events: "
              (ArgExn (UnicodeDecodeError (lit "unexpected end of data")))].
Proof. vm_compute. repeat split. Qed.

(** C4 fails on the code in [stream_events]: with an object between two
    events that [CloudEvent] rejects, [observe_events] reports it and yields
    the two events, but [stream_events] raises the rejection and returns no
    event at all. *)
Theorem rejected_object_is_fatal_when_streaming :
  let rejection :=
    OtherError (lit "MissingRequiredFields") (lit "Missing required keys") in
  fst (observing (Sample.ok_chunks [Sample.mixed_chunk])) = Ret tt
  /\ emitted (snd (observing (Sample.ok_chunks [Sample.mixed_chunk])))
     = [Sample.event1; Sample.event2]
  /\ log (snd (observing (Sample.ok_chunks [Sample.mixed_chunk])))
     = [Print "Error creating CloudEvent: " (ArgExn rejection)]
  /\ fst (streaming (Sample.ok_text Sample.mixed_body)) = Raise rejection
  /\ log (snd (streaming (Sample.ok_text Sample.mixed_body)))
     = [Print "Error while streaming events: " (ArgExn rejection)].
Proof. vm_compute. repeat split. Qed.

(** The example of the specification for C5. *)
Example options_on_the_wire :
  stream_events_body (lit "/x")
    (Some [(lit "lower_bound", JStr (lit "ID"));
           (lit "include_lower_bound_event", JBool true)])
  = [(lit "subject", JStr (lit "/x"));
     (lit "options", JDict [(lit "lowerBound", JStr (lit "ID"));
                            (lit "includeLowerBoundEvent", JBool true)])].
Proof. reflexivity. Qed.

(** C6 at a body of white space. *)
Lemma blank_body_gives_no_results_witness :
  fst (streaming (Sample.ok_text [32; 10; 9; 32]%N)) = Ret []
  /\ fst (querying (Sample.ok_text [32; 10; 9; 32]%N)) = Ret [].
Proof.
  destruct (@blank_body_gives_no_results Ref.Event Ref.json_loads Ref.CloudEvent
              (Sample.answering (Sample.ok_text [32; 10; 9; 32]%N))
              (Sample.ok_text [32; 10; 9; 32]%N) Sample.self
              (lit "/x") (lit "STREAM e FROM events") None w0
              (fun _ => eq_refl) eq_refl eq_refl) as [H1 H2].
  unfold streaming, querying. rewrite H1, H2. split; reflexivity.
Defined.

(** C8 at a 404 answer. *)
Lemma non_2xx_is_raised_witness :
  fst (ping (Sample.answering Sample.not_found) Sample.self w0)
  = Raise (HTTPStatusError 404 (lit "Not Found"))
  /\ log (snd (committing [Sample.event_gdpr]))
     = [Print "API Error: " (ArgStatus 404 (lit "Not Found"))]
  /\ List.length (sent (snd (observing Sample.not_found))) = 1%nat.
Proof.
  destruct (@non_2xx_is_raised Ref.Event Ref.json_loads Ref.CloudEvent
              (Sample.answering Sample.not_found) Sample.not_found Sample.self w0
              (fun _ => eq_refl) eq_refl)
    as (_ & Hcommit & _ & _ & Hping & _ & _ & Hobserve).
  unfold committing, observing.
  rewrite Hping, (Hobserve (lit "/x") None),
    (Hcommit [Sample.event_gdpr] None _ eq_refl).
  repeat split.
Defined.

(** C9 with nothing but the version set. *)
Lemma Client_init_missing_settings_witness :
  Client_init Sample.environ_version None
  = Raise (ValueError
             (lit "Missing required environment variables: GENESISDB_API_URL, GENESISDB_AUTH_TOKEN")).
Proof.
  exact (proj1 (@Client_init_missing_settings Sample.environ_version None
                  ltac:(vm_compute; discriminate))).
Defined.

(** C9 as stated fails: the config object supplies the URL and the
    environment the version, so only the token is missing, yet the error
    also names the variable of the URL. *)
Lemma Client_init_names_supplied_setting :
  api_url (settings Sample.environ_version Sample.config_url)
  = lit "http://localhost:8080"
  /\ missing_settings (settings Sample.environ_version Sample.config_url)
     = [lit "GENESISDB_AUTH_TOKEN"]
  /\ Client_init Sample.environ_version Sample.config_url
     = Raise (ValueError
                (lit "Missing required environment variables: GENESISDB_API_URL, GENESISDB_AUTH_TOKEN"))
  /\ Client_init Sample.environ_version Sample.config_url
     <> Raise (ValueError
                 (lit "Missing required environment variables: "
                  ++ join (lit ", ")
                       (missing_settings
                          (settings Sample.environ_version Sample.config_url)))).
Proof. vm_compute. repeat split. discriminate. Qed.

(** C7 at two events of which the second has no newline after it. *)
Lemma unterminated_remainder_witness :
  emitted (snd (observing Sample.open_response)) = [Sample.event1]
  /\ fst (streaming Sample.open_response) = Ret [Sample.event1; Sample.event2]
  /\ List.length (match fst (querying Sample.open_response) with
                  | Ret results => results
                  | Raise _ => []
                  end) = 2%nat.
Proof.
  destruct (@unterminated_remainder Ref.Event Ref.json_loads Ref.CloudEvent
              (Sample.answering Sample.open_response)
              (Sample.line1 ++ [NL]) Sample.line2 Sample.open_response Sample.self
              (lit "/x") (lit "STREAM e FROM events") None w0
              eq_refl (or_intror (ex_intro _ Sample.line1 eq_refl))
              (fun _ => eq_refl) eq_refl) as [Hobserve Hwhole].
  destruct (Hwhole eq_refl ltac:(vm_compute; discriminate)) as [Hstream Hq].
  unfold observing, streaming, querying.
  rewrite (Hobserve Sample.open_texts
             ltac:(repeat constructor) eq_refl), Hstream, Hq.
  vm_compute. repeat split.
Defined.

(** C10 at an event that lacks its type. *)
Lemma commit_events_reads_four_keys_witness :
  (exists k, In k event_keys
             /\ committing [Sample.event_gdpr; Sample.event_no_type]
                = (Raise (KeyError k), w0))
  /\ commit_events_body [Sample.event_gdpr] None
     = inr [(lit "events",
             JList [JDict [(lit "source", JStr (lit "s")); (lit "subject", JStr (lit "/x"));
                           (lit "type", JStr (lit "t")); (lit "data", JDict []);
                           (lit "options",
                            JDict [(lit "storeDataAsReference", JBool true)])]])].
Proof.
  split.
  - exact (proj1 (@commit_events_reads_four_keys Ref.Event
                    (Sample.answering Sample.not_found) Sample.self
                    [Sample.event_gdpr; Sample.event_no_type] None w0 eq_refl) eq_refl).
  - exact (proj1 (proj2 (@commit_events_reads_four_keys Ref.Event
                           (Sample.answering Sample.not_found) Sample.self
                           [Sample.event_gdpr] None w0 eq_refl) eq_refl)).
Defined.

(** C10 as stated fails: the second event lacks its type, but the first
    has [None] for options, and the test for the option raises [TypeError]
    before the second event is looked at. *)
Lemma commit_events_raises_TypeError :
  forallb has_event_keys [Sample.event_options_none; Sample.event_no_type] = false
  /\ has_event_keys Sample.event_options_none = true
  /\ committing [Sample.event_options_none; Sample.event_no_type]
     = (Raise (TypeError (lit "argument is not iterable")), w0).
Proof. vm_compute. repeat split. Qed.

(** Two cuts of one stream, both at character boundaries. *)
Lemma chunking_at_character_boundaries_witness :
  observe_events_chunks Ref.json_loads Ref.CloudEvent Sample.open_chunks [] w0
  = observe_events_chunks Ref.json_loads Ref.CloudEvent Sample.open_chunks' [] w0.
Proof.
  exact (@chunking_at_character_boundaries Ref.Event Ref.json_loads Ref.CloudEvent
           Sample.open_chunks Sample.open_chunks' Sample.open_texts Sample.open_texts' w0
           ltac:(repeat constructor) ltac:(repeat constructor) eq_refl).
Defined.

(** The rejected object between two events, in both loops. *)
Lemma rejection_is_fatal_only_when_streaming_witness :
  stream_events_loop Ref.json_loads Ref.CloudEvent
    [Sample.line1; Sample.no_event; Sample.line2] [] w0
  = (Raise (OtherError (lit "MissingRequiredFields") (lit "Missing required keys")), w0)
  /\ emitted (snd (observe_events_drain Ref.json_loads Ref.CloudEvent
                     (Sample.no_event ++ NL :: Sample.line2 ++ [NL]) w0))
     = [Sample.event2].
Proof.
  destruct (@rejection_is_fatal_only_when_streaming Ref.Event Ref.json_loads
              Ref.CloudEvent Sample.no_event (JDict [(lit "a", JInt 1)])
              (OtherError (lit "MissingRequiredFields") (lit "Missing required keys"))
              ltac:(vm_compute; discriminate) eq_refl eq_refl) as [Hstream Hobserve].
  split.
  - exact (Hstream [Sample.line1] [Sample.line2] [] [Sample.event1] w0 w0
                   eq_refl eq_refl).
  - rewrite (Hobserve (Sample.line2 ++ [NL]) w0 eq_refl eq_refl eq_refl).
    vm_compute. reflexivity.
Defined.

(** A full config object against an environment that says otherwise; and a
    config object that gives nothing. *)
Lemma config_and_environment_witness :
  Client_init [(lit "GENESISDB_API_URL", lit "http://elsewhere")]
    (Some [(lit "api_url", lit "http://localhost:8080");
           (lit "api_version", lit "v1"); (lit "auth_token", lit "secret")])
  = Ret Sample.self
  /\ Client_init Sample.environ_version (Some [(lit "api_url", [])])
     = Client_init Sample.environ_version None.
Proof.
  split.
  - exact (proj1 (config_and_environment
                    [(lit "GENESISDB_API_URL", lit "http://elsewhere")]
                    [(lit "api_url", lit "http://localhost:8080");
                     (lit "api_version", lit "v1"); (lit "auth_token", lit "secret")])
                 (lit "http://localhost:8080") (lit "v1") (lit "secret")
                 eq_refl ltac:(discriminate) eq_refl ltac:(discriminate)
                 eq_refl ltac:(discriminate)).
  - exact (proj2 (config_and_environment Sample.environ_version
                    [(lit "api_url", [])])
                 (or_intror eq_refl) (or_introl eq_refl) (or_introl eq_refl)).
Defined.

(** One request, and the line of the operation, when nothing answers. *)
Lemma transport_failure_is_reported_witness :
  ping (fun _ => Failed (OtherError (lit "ConnectError") (lit "refused")))
       Sample.self w0
  = (Raise (OtherError (lit "ConnectError") (lit "refused")),
     mkWorld [Print "Error while pinging: "
                    (ArgExn (OtherError (lit "ConnectError") (lit "refused")))]
             [mkRequest GET (lit "http://localhost:8080/api/v1/status/ping") None
                        (plain_headers Sample.self) false]
             []).
Proof.
  exact (proj1 (proj2 (proj2 (proj2 (proj2
    (@transport_failure_is_reported Ref.Event Ref.json_loads Ref.CloudEvent
       (fun _ => Failed (OtherError (lit "ConnectError") (lit "refused")))
       (OtherError (lit "ConnectError") (lit "refused")) Sample.self w0
       (fun _ => eq_refl) ltac:(discriminate))))))).
Defined.

Lemma Ref_json_loads_raises_JSONDecodeError (s : str) (e : exn) :
  Ref.json_loads s = inl e -> is_JSONDecodeError e = true.
Proof.
  unfold Ref.json_loads.
  destruct (Ref.read _ _ _) as [[v r]|]; [destruct (Ref.skip_ws r)|];
    intros H; try discriminate; now injection H as <-.
Qed.

(** [q] on the three lines of which the second is no JSON. *)
Lemma q_returns_decoded_lines_witness :
  exists w',
    querying (Sample.ok_text example_body)
    = (Ret [JDict [(lit "a", JInt 1)]; JDict [(lit "a", JInt 2)]], w')
    /\ List.length (log w') = 2%nat.
Proof.
  destruct (@q_returns_decoded_lines Ref.Event Ref.json_loads
              (Sample.answering (Sample.ok_text example_body))
              (Sample.ok_text example_body) Sample.self
              (lit "STREAM e FROM events") w0
              (fun _ => eq_refl) eq_refl Ref_json_loads_raises_JSONDecodeError)
    as (w' & Hq & _ & Hlog).
  exists w'. split; [exact Hq|exact Hlog].
Defined.

(** [stream_events] on two events with a blank line between them. *)
Lemma stream_events_returns_every_event_witness :
  fst (streaming (Sample.ok_text (Sample.line1 ++ NL :: NL :: Sample.line2 ++ [NL])))
  = Ret [Sample.event1; Sample.event2].
Proof.
  unfold streaming.
  rewrite (@stream_events_returns_every_event Ref.Event Ref.json_loads Ref.CloudEvent
             (Sample.answering
                (Sample.ok_text (Sample.line1 ++ NL :: NL :: Sample.line2 ++ [NL])))
             (Sample.ok_text (Sample.line1 ++ NL :: NL :: Sample.line2 ++ [NL]))
             Sample.self (lit "/x") None [Sample.event1; Sample.event2] w0
             (fun _ => eq_refl) eq_refl).
  - reflexivity.
  - replace (nonblank (split NL (text (Sample.ok_text
               (Sample.line1 ++ NL :: NL :: Sample.line2 ++ [NL])))))
      with [Sample.line1; Sample.line2] by (vm_compute; reflexivity).
    repeat (constructor; [eexists; split; vm_compute; reflexivity|]). constructor.
Defined.

(** [observe_events] on the two events in three chunks, the second event
    without its newline. *)
Lemma observe_events_yields_in_order_witness :
  fst (observing Sample.open_response) = Ret tt
  /\ emitted (snd (observing Sample.open_response)) = [Sample.event1].
Proof.
  destruct (@observe_events_yields_in_order Ref.Event Ref.json_loads Ref.CloudEvent
              (Sample.answering Sample.open_response) Sample.open_response
              Sample.open_texts Sample.self (lit "/x") None w0
              (fun _ => eq_refl) eq_refl ltac:(repeat constructor)) as [Hres Hem].
  unfold observing. rewrite Hres, Hem. split; vm_compute; reflexivity.
Defined.


(** A line of two spaces between two events. *)
Lemma blank_line_is_skipped_witness :
  stream_events_loop Ref.json_loads Ref.CloudEvent
    [Sample.line1; lit "  "; Sample.line2] [] w0
  = (Ret [Sample.event1; Sample.event2], w0)
  /\ observe_events_drain Ref.json_loads Ref.CloudEvent
       (lit "  " ++ NL :: Sample.line1 ++ [NL]) w0
     = (Ret [], mkWorld [] [] [Sample.event1]).
Proof.
  destruct (@blank_line_is_skipped Ref.Event Ref.json_loads Ref.CloudEvent (lit "  ")
              eq_refl) as (Hstream & _ & Hobserve).
  split.
  - etransitivity; [exact (Hstream [Sample.line1] [Sample.line2] [] w0)|].
    vm_compute. reflexivity.
  - rewrite (Hobserve (Sample.line1 ++ [NL]) w0 eq_refl). vm_compute. reflexivity.
Defined.




(** A complete event, then one without its type. *)
Lemma commit_events_names_first_missing_key_witness :
  committing [Sample.event_gdpr; Sample.event_no_type; Sample.event_options_none]
  = (Raise (KeyError (lit "type")), w0).
Proof.
  exact (@commit_events_names_first_missing_key Ref.Event
           (Sample.answering Sample.not_found) Sample.self
           [Sample.event_gdpr] [Sample.event_options_none] Sample.event_no_type
           (lit "type") None w0 eq_refl eq_refl eq_refl).
Defined.



(** C3 at two events with a keep-alive object between them, at a stream of
    two keep-alive objects, and with a constructor that accepts every
    object. *)
Lemma keepalive_is_dropped_by_observe_events_only_witness :
  let rejection :=
    OtherError (lit "MissingRequiredFields") (lit "Missing required keys") in
  let beat := blit "{'payload':''}" ++ [x0a] in
  fst (observing Sample.idle_response) = Ret tt
  /\ emitted (snd (observing Sample.idle_response)) = [Sample.event1; Sample.event2]
  /\ log (snd (observing Sample.idle_response)) = []
  /\ fst (streaming Sample.idle_response) = Raise rejection
  /\ log (snd (streaming Sample.idle_response))
     = [Print "Error while streaming events: " (ArgExn rejection)]
  /\ fst (observing (Sample.ok_chunks [beat; beat])) = Ret tt
  /\ emitted (snd (observing (Sample.ok_chunks [beat; beat]))) = []
  /\ log (snd (observing (Sample.ok_chunks [beat; beat]))) = []
  /\ match fst (stream_events Ref.json_loads (fun v => inr v)
                  (Sample.answering Sample.idle_response) Sample.self (lit "/x") None
                  (mkWorld [] [] []))
     with
     | Ret [_; second; _] => second = keepalive
     | _ => False
     end.
Proof.
  destruct (@keepalive_is_dropped_by_observe_events_only Ref.Event Ref.json_loads
              Ref.CloudEvent (Sample.answering Sample.idle_response)
              Sample.idle_response Sample.self (lit "/x") None w0
              (fun _ => eq_refl) eq_refl)
    as (Hobserve & _ & _ & Hstream).
  destruct (@keepalive_is_dropped_by_observe_events_only Ref.Event Ref.json_loads
              Ref.CloudEvent
              (Sample.answering
                 (Sample.ok_chunks [blit "{'payload':''}" ++ [x0a];
                                    blit "{'payload':''}" ++ [x0a]]))
              (Sample.ok_chunks [blit "{'payload':''}" ++ [x0a];
                                 blit "{'payload':''}" ++ [x0a]])
              Sample.self (lit "/x") None w0
              (fun _ => eq_refl) eq_refl)
    as (_ & Hbeats & _).
  destruct (@keepalive_is_dropped_by_observe_events_only json Ref.json_loads
              (fun v => inr v) (Sample.answering Sample.idle_response)
              Sample.idle_response Sample.self (lit "/x") None (mkWorld [] [] [])
              (fun _ => eq_refl) eq_refl)
    as (_ & _ & Haccept & _).
  cbv zeta. unfold observing, streaming.
  rewrite (Hobserve (Sample.line1 ++ [NL]) Sample.keepalive_line
             (Sample.line2 ++ [NL]) Sample.idle_texts
             ltac:(repeat constructor) ltac:(vm_compute; reflexivity)
             (or_intror (ex_intro _ Sample.line1 eq_refl)) eq_refl
             ltac:(vm_compute; discriminate) eq_refl).
  rewrite (Hstream [Sample.line1] Sample.keepalive_line [Sample.line2]
             [Sample.event1]
             (OtherError (lit "MissingRequiredFields") (lit "Missing required keys"))
             ltac:(vm_compute; reflexivity)
             ltac:(repeat constructor; eexists; split; vm_compute; reflexivity)
             eq_refl eq_refl eq_refl).
  assert (Hlines : nonblank (removelast (split NL (List.concat
                               [Sample.keepalive_line ++ [NL];
                                Sample.keepalive_line ++ [NL]])))
                   = [Sample.keepalive_line; Sample.keepalive_line])
    by (vm_compute; reflexivity).
  rewrite (Hbeats [Sample.keepalive_line ++ [NL]; Sample.keepalive_line ++ [NL]]
             ltac:(repeat constructor)).
  2:{ rewrite Hlines.
      constructor; [vm_compute; reflexivity|].
      constructor; [vm_compute; reflexivity|constructor]. }
  rewrite (Haccept [Sample.line1] Sample.keepalive_line [Sample.line2]
             [JDict [(lit "id", JStr (lit "1")); (lit "source", JStr (lit "s"));
                     (lit "type", JStr (lit "t")); (lit "subject", JStr (lit "/x"))]]
             [JDict [(lit "id", JStr (lit "2")); (lit "source", JStr (lit "s"));
                     (lit "type", JStr (lit "t")); (lit "subject", JStr (lit "/x"))]]
             keepalive
             ltac:(vm_compute; reflexivity)
             ltac:(repeat constructor; eexists; split; vm_compute; reflexivity)
             ltac:(repeat constructor; eexists; split; vm_compute; reflexivity)
             eq_refl eq_refl).
  vm_compute. repeat split.
Defined.
